(** * advance_store: the Store container, full and minimal variants

    A shallow embedding of [include/advance_store.hpp] (namespace [adv],
    full variant) and [include/advance_store_mini.hpp] (minimal variant),
    together with the parts of the C++ standard library they delegate to:
    [std::vector], the [<algorithm>] calls, [std::stoi] and
    [std::to_string].

    Conventions.
    - [size_t] positions and sizes are [nat]: the headers never do
      arithmetic on them, so no wrap-around can be observed.
    - [int] is a [Z] in the 32-bit two's complement range ([is_int]).
    - [std::string] is [string]; [char] is [ascii].
    - A container or value passed to a member function is a value of its
      own: a store is never inserted into itself.
    - Memory exhaustion ([std::bad_alloc], [max_size]) is not modelled. *)

From Stdlib Require Import Ascii String.
From Stdlib Require Import List Arith ZArith NArith Lia Bool.
From Stdlib Require Import Sorted Permutation.
From Equations Require Import Equations.
From Equations.Prop Require Import Logic.
Import ListNotations.

Set Implicit Arguments.

(* ===================================================================== *)
(** ** Exceptions and outcomes of a member function call *)
(* ===================================================================== *)

(** The three kinds thrown by [class Errors]. [std::vector::at] throws the
    same [std::out_of_range] kind. *)
Inductive exn : Type :=
| OutOfRange
| InvalidArgument
| RuntimeError.

(** What a call on an object in state [S] can do: return a value, throw,
    or run into undefined behaviour (a violated precondition of the
    underlying [std::vector]).  The first two carry the state the object is
    left in. *)
Inductive outcome (S A : Type) : Type :=
| Normal (a : A) (s : S)
| Raised (e : exn) (s : S)
| Undefined.

Arguments Normal {S A} a s.
Arguments Raised {S A} e s.
Arguments Undefined {S A}.

(** The state of the object after the call, when there is one. *)
Definition state_after {S A} (o : outcome S A) : option S :=
  match o with
  | Normal _ s => Some s
  | Raised _ s => Some s
  | Undefined => None
  end.

Definition raises {S A} (o : outcome S A) (e : exn) : Prop :=
  exists s, o = Raised e s.

Definition raises_nothing {S A} (o : outcome S A) : Prop :=
  exists a s, o = Normal a s.

(** [m], called in state [s], throws [e] exactly when [bad] holds, throws
    nothing else, leaves the object as it was when it throws, and returns
    normally otherwise. *)
Definition guarded_by {S A} (m : S -> outcome S A) (e : exn) (bad : Prop) (s : S)
  : Prop :=
  (raises (m s) e <-> bad) /\
  (forall e' s', m s = Raised e' s' -> e' = e /\ s' = s) /\
  (~ bad -> raises_nothing (m s)).

(** The call neither changed the object nor left it undefined. *)
Definition leaves_unchanged {S A} (o : outcome S A) (s : S) : Prop :=
  state_after o = Some s.

(** Member functions as state transformers that may throw. *)
Definition method (S A : Type) : Type := S -> outcome S A.

Definition ret {S A} (a : A) : method S A := fun s => Normal a s.

Definition throw {S A} (e : exn) : method S A := fun s => Raised e s.

Definition bind {S A B} (m : method S A) (k : A -> method S B) : method S B :=
  fun s =>
    match m s with
    | Normal a s' => k a s'
    | Raised e s' => Raised e s'
    | Undefined => Undefined
    end.

Declare Scope method_scope.
Delimit Scope method_scope with method.
Notation "x <- m ;; k" := (bind m (fun x => k))
  (at level 61, m at next level, right associativity) : method_scope.
Notation "m ;; k" := (bind m (fun _ => k))
  (at level 61, right associativity) : method_scope.

(** Replace the state by the result of a [std::vector] call whose
    precondition may be violated. *)
Definition update {S} (f : S -> option S) : method S unit :=
  fun s =>
    match f s with
    | Some s' => Normal tt s'
    | None => Undefined
    end.

(** A range-based [for] over [l] with a body acting on the state. *)
Fixpoint for_each {S X} (l : list X) (body : X -> method S unit) : method S unit :=
  match l with
  | [] => ret tt
  | x :: r => (body x ;; for_each r body)%method
  end.

(** A [const] member function that fills a local object of state [L],
    starting from [init], and returns it: the object it is called on is
    left as it is. *)
Definition building {S L} (init : L) (body : method L unit) : method S L :=
  fun self =>
    match body init with
    | Normal _ result => Normal result self
    | Raised e _ => Raised e self
    | Undefined => Undefined
    end.

(* ===================================================================== *)
(** ** std::vector *)
(* ===================================================================== *)

(** How an implementation of [std::vector] chooses capacities.  The
    standard fixes none of these numbers, only the lower bounds stated by
    the four laws. *)
Class Allocator : Type := {
  fresh_capacity : nat -> nat;
  grown_capacity : nat -> nat -> nat;
  reserved_capacity : nat -> nat -> nat;
  shrunk_capacity : nat -> nat -> nat;
  fresh_capacity_ge : forall n, n <= fresh_capacity n;
  grown_capacity_ge : forall c n, n <= grown_capacity c n;
  reserved_capacity_ge : forall c n, n <= reserved_capacity c n;
  shrunk_capacity_ge : forall c n, n <= c -> n <= shrunk_capacity c n
}.

Module StdVector.

Record vector (T : Type) : Type := mkVector {
  items : list T;
  reserved : nat
}.

Arguments mkVector {T} items reserved.

Section Operations.
Context {alloc : Allocator}.
Variable T : Type.

Definition size (v : vector T) : nat := length (items v).
Definition empty (v : vector T) : bool :=
  match items v with [] => true | _ :: _ => false end.
Definition capacity (v : vector T) : nat := reserved v.

(** The elements of a vector fit its storage. *)
Definition fits (v : vector T) : Prop := size v <= capacity v.

(** Constructors: [vector()], [vector(n)] (value-initialised elements),
    [vector(first, last)] and [vector(initializer_list)]. *)
Definition create : vector T := mkVector [] (fresh_capacity 0).
Definition create_sized (dflt : T) (n : nat) : vector T :=
  mkVector (repeat dflt n) (fresh_capacity n).
Definition create_from (l : list T) : vector T :=
  mkVector l (fresh_capacity (length l)).

(** Capacity needed to hold [n] elements: storage is reallocated only
    when the current capacity does not suffice. *)
Definition room_for (n : nat) (v : vector T) : nat :=
  if n <=? capacity v then capacity v else grown_capacity (capacity v) n.

(** [operator[]]: no check; reading past the end is undefined. *)
Definition index (v : vector T) (pos : nat) : option T :=
  nth_error (items v) pos.

(** [at]: checked; throws [std::out_of_range] when [pos >= size()]. *)
Definition at_ (v : vector T) (pos : nat) : exn + T :=
  if size v <=? pos then inl OutOfRange
  else match nth_error (items v) pos with
       | Some x => inr x
       | None => inl OutOfRange
       end.

(** [front()], [back()]: undefined on an empty vector. *)
Definition front (v : vector T) : option T := hd_error (items v).
Definition back (v : vector T) : option T :=
  match items v with
  | [] => None
  | x :: l => Some (last l x)
  end.

Definition push_back (x : T) (v : vector T) : vector T :=
  mkVector (items v ++ [x]) (room_for (S (size v)) v).

(** [pop_back()]: undefined on an empty vector. *)
Definition pop_back (v : vector T) : option (vector T) :=
  match items v with
  | [] => None
  | _ :: _ => Some (mkVector (removelast (items v)) (capacity v))
  end.

(** [insert(begin() + pos, x)]: the iterator must lie in
    [[begin(), end()]]. *)
Definition insert (pos : nat) (x : T) (v : vector T) : option (vector T) :=
  if pos <=? size v
  then Some (mkVector (firstn pos (items v) ++ x :: skipn pos (items v))
                      (room_for (S (size v)) v))
  else None.

(** [insert(begin() + pos, first, last)]. *)
Definition insert_range (pos : nat) (l : list T) (v : vector T)
  : option (vector T) :=
  if pos <=? size v
  then Some (mkVector (firstn pos (items v) ++ l ++ skipn pos (items v))
                      (room_for (size v + length l) v))
  else None.

(** [erase(begin() + pos)]: the iterator must be dereferenceable. *)
Definition erase (pos : nat) (v : vector T) : option (vector T) :=
  if pos <? size v
  then Some (mkVector (firstn pos (items v) ++ skipn (S pos) (items v))
                      (capacity v))
  else None.

(** [erase(begin() + from, end())]. *)
Definition erase_to_end (from : nat) (v : vector T) : option (vector T) :=
  if from <=? size v
  then Some (mkVector (firstn from (items v)) (capacity v))
  else None.

(** [v[pos] = x]: assignment through the reference returned by
    [operator[]]; undefined past the end. *)
Definition assign (pos : nat) (x : T) (v : vector T) : option (vector T) :=
  if pos <? size v
  then Some (mkVector (firstn pos (items v) ++ x :: skipn (S pos) (items v))
                      (capacity v))
  else None.

Definition clear (v : vector T) : vector T := mkVector [] (capacity v).

Definition resize (dflt : T) (n : nat) (v : vector T) : vector T :=
  if n <=? size v
  then mkVector (firstn n (items v)) (capacity v)
  else mkVector (items v ++ repeat dflt (n - size v)) (room_for n v).

Definition reserve (n : nat) (v : vector T) : vector T :=
  if n <=? capacity v then v
  else mkVector (items v) (reserved_capacity (capacity v) n).

Definition shrink_to_fit (v : vector T) : vector T :=
  mkVector (items v) (shrunk_capacity (capacity v) (size v)).

(** Writing through the iterator range [[begin(), end())]: the
    elements change, their number and the storage do not. *)
Definition rewrite_items (f : list T -> list T) (v : vector T) : vector T :=
  mkVector (f (items v)) (capacity v).

End Operations.

End StdVector.

(* ===================================================================== *)
(** ** Element types *)
(* ===================================================================== *)

(** The operators a template instantiation needs from [T]. *)
Class EqOp (T : Type) : Type := eq_op : T -> T -> bool.   (* operator== *)
Class LtOp (T : Type) : Type := lt_op : T -> T -> bool.   (* operator<  *)
Class GtOp (T : Type) : Type := gt_op : T -> T -> bool.   (* operator>  *)
Class Default (T : Type) : Type := value_init : T.        (* T{}        *)

(** An element type whose [==], [<] and [>] are the equality and the two
    directions of one strict total order, as for [int], [char] and
    [std::string]. *)
Class TotalOrder (T : Type) {E : EqOp T} {L : LtOp T} {G : GtOp T} : Prop := {
  eq_op_spec : forall x y, eq_op x y = true <-> x = y;
  lt_op_irrefl : forall x, lt_op x x = false;
  lt_op_trans : forall x y z,
    lt_op x y = true -> lt_op y z = true -> lt_op x z = true;
  lt_op_total : forall x y, lt_op x y = true \/ x = y \/ lt_op y x = true;
  gt_op_spec : forall x y, gt_op x y = lt_op y x
}.

Arguments TotalOrder T {E L G}.

(** [int]: a 32-bit two's complement integer, carried as a [Z]. *)
Definition INT_MIN : Z := - 2 ^ 31.
Definition INT_MAX : Z := 2 ^ 31 - 1.
Definition is_int (z : Z) : Prop := (INT_MIN <= z <= INT_MAX)%Z.

#[export] Instance int_eq : EqOp Z := Z.eqb.
#[export] Instance int_lt : LtOp Z := Z.ltb.
#[export] Instance int_gt : GtOp Z := Z.gtb.
#[export] Instance int_default : Default Z := 0%Z.

(* ===================================================================== *)
(** ** <algorithm> and <numeric> on the range [begin(), end()) *)
(* ===================================================================== *)

Module Algo.

Section Ranges.
Variable T : Type.

(** [std::find]: the position of the first match, [None] for [last]. *)
Fixpoint find `{EqOp T} (l : list T) (value : T) : option nat :=
  match l with
  | [] => None
  | x :: r => if eq_op x value then Some 0
              else option_map S (find r value)
  end.

Definition count `{EqOp T} (l : list T) (value : T) : nat :=
  length (filter (fun x => eq_op x value) l).

Definition replace `{EqOp T} (old_value new_value : T) (l : list T) : list T :=
  map (fun x => if eq_op x old_value then new_value else x) l.

Definition fill (value : T) (l : list T) : list T := map (fun _ => value) l.

Definition reverse (l : list T) : list T := rev l.

Definition any_of (pred : T -> bool) (l : list T) : bool := existsb pred l.
Definition all_of (pred : T -> bool) (l : list T) : bool := forallb pred l.
Definition none_of (pred : T -> bool) (l : list T) : bool :=
  negb (existsb pred l).

(** [std::max_element]: [largest] moves to a later element only when
    [*largest < *first], so the first maximal element wins.  [None] is
    the iterator [last], returned for an empty range. *)
Fixpoint max_scan `{LtOp T} (largest : T) (rest : list T) : T :=
  match rest with
  | [] => largest
  | x :: r => max_scan (if lt_op largest x then x else largest) r
  end.

Definition max_element `{LtOp T} (l : list T) : option T :=
  match l with
  | [] => None
  | x :: r => Some (max_scan x r)
  end.

(** [std::min_element]: moves only when [*first < *smallest]. *)
Fixpoint min_scan `{LtOp T} (smallest : T) (rest : list T) : T :=
  match rest with
  | [] => smallest
  | x :: r => min_scan (if lt_op x smallest then x else smallest) r
  end.

Definition min_element `{LtOp T} (l : list T) : option T :=
  match l with
  | [] => None
  | x :: r => Some (min_scan x r)
  end.

(** [std::sort(first, last, comp)].  The standard promises a
    permutation of the range that is ordered by [comp] and leaves the
    order of equivalent elements open; this model inserts each element
    behind the elements that are not greater.  For a strict total
    order there is only one ordered permutation
    ([sort_unique] below), so the choice cannot be observed. *)
Fixpoint sort_insert (comp : T -> T -> bool) (x : T) (l : list T) : list T :=
  match l with
  | [] => [x]
  | y :: r => if comp x y then x :: y :: r
              else y :: sort_insert comp x r
  end.

Fixpoint sort (comp : T -> T -> bool) (l : list T) : list T :=
  match l with
  | [] => []
  | x :: r => sort_insert comp x (sort comp r)
  end.

(** [std::unique]: [result] is the last element kept; an element is
    kept when it is not [==] to [*result]. *)
Fixpoint unique_scan `{EqOp T} (result : T) (rest : list T) : list T :=
  match rest with
  | [] => [result]
  | x :: r => if eq_op result x then unique_scan result r
              else result :: unique_scan x r
  end.

Definition unique_kept `{EqOp T} (l : list T) : list T :=
  match l with
  | [] => []
  | x :: r => unique_scan x r
  end.

(** The range after [std::unique] and the returned iterator: the kept
    elements are compacted to the front, the positions behind the
    returned iterator keep what was there. *)
Definition unique `{EqOp T} (l : list T) : list T * nat :=
  let kept := unique_kept l in
  (kept ++ skipn (length kept) l, length kept).

(** [std::accumulate(first, last, init)] with [operator+]. *)
Definition accumulate (plus : T -> T -> T) (init : T) (l : list T) : T :=
  fold_left plus l init.

End Ranges.

End Algo.

(* ===================================================================== *)
(** ** std::stoi and std::to_string *)
(* ===================================================================== *)

Module Text.

Open Scope Z_scope.

Definition char_code (c : ascii) : Z := Z.of_N (N_of_ascii c).

(** [isspace] in the "C" locale: space, and \t \n \v \f \r. *)
Definition isspace (c : ascii) : bool :=
  (char_code c =? 32) || ((9 <=? char_code c) && (char_code c <=? 13)).

Definition digit_value (c : ascii) : option Z :=
  if (48 <=? char_code c) && (char_code c <=? 57)
  then Some (char_code c - 48) else None.

Definition digit_char (d : Z) : ascii := ascii_of_N (Z.to_N (48 + d)).

Fixpoint skip_space (s : string) : string :=
  match s with
  | String c s' => if isspace c then skip_space s' else s
  | EmptyString => s
  end.

(** The digit loop of [strtol] in base 10: [any] records whether a digit
    was consumed; without one there is no conversion. *)
Fixpoint scan_digits (s : string) (acc : Z) (any : bool) : option Z :=
  match s with
  | String c s' =>
      match digit_value c with
      | Some d => scan_digits s' (acc * 10 + d) true
      | None => if any then Some acc else None
      end
  | EmptyString => if any then Some acc else None
  end.

(** The range of [long] where it has 64 bits.  [stoi] narrows to [int]
    afterwards, so a 32-bit [long] gives the same results. *)
Definition LONG_MIN : Z := - 2 ^ 63.
Definition LONG_MAX : Z := 2 ^ 63 - 1.

(** [strtol(str, &end, 10)]: [None] when no conversion was performed
    ([end == str]); otherwise the value, clamped to the range of [long],
    and whether [errno] was set to [ERANGE]. *)
Definition strtol (s : string) : option (Z * bool) :=
  let body := skip_space s in
  let '(negative, digits) :=
    match body with
    | String "-"%char r => (true, r)
    | String "+"%char r => (false, r)
    | _ => (false, body)
    end in
  match scan_digits digits 0 false with
  | None => None
  | Some magnitude =>
      let v := if negative then - magnitude else magnitude in
      if v <? LONG_MIN then Some (LONG_MIN, true)
      else if LONG_MAX <? v then Some (LONG_MAX, true)
      else Some (v, false)
  end.

Inductive stoi_error : Type :=
| stoi_invalid_argument
| stoi_out_of_range.

(** [std::stoi(str)]: throws [std::invalid_argument] when no conversion
    could be performed and [std::out_of_range] when the value does not
    fit an [int]. *)
Definition stoi (s : string) : stoi_error + Z :=
  match strtol s with
  | None => inl stoi_invalid_argument
  | Some (v, erange) =>
      if erange || (v <? INT_MIN) || (INT_MAX <? v)
      then inl stoi_out_of_range
      else inr v
  end.

(** The decimal digits of a non-negative number, most significant
    first. *)
Equations? decimal (n : Z) : string by wf (Z.to_nat (Z.log2 n)) lt :=
  decimal n with inspect (n <? 10) := {
    | exist _ true _ => String (digit_char n) EmptyString
    | exist _ false big =>
        (decimal (n / 10) ++ String (digit_char (n mod 10)) EmptyString)%string
  }.
Proof.
  apply Z.ltb_ge in big.
  assert (Z.log2 (n / 10) <= Z.log2 (n / 2 ^ 1)).
  { apply Z.log2_le_mono.
    apply Z.div_le_compat_l; lia. }
  rewrite <- Z.shiftr_div_pow2, Z.log2_shiftr in * by lia.
  assert (3 <= Z.log2 n) by (apply Z.log2_le_pow2; lia).
  lia.
Qed.

(** [std::to_string(int)]: what [printf("%d")] writes. *)
Definition to_string (val : Z) : string :=
  if val <? 0 then String "-"%char (decimal (- val)) else decimal val.

Close Scope Z_scope.

End Text.

(* ===================================================================== *)
(** ** Typed conversion: source element types *)
(* ===================================================================== *)

(** [double] and the library calls on it that the headers use.  Floating
    point arithmetic itself is left abstract. *)
Class Floating : Type := {
  double : Type;
  double_zero : double;                       (* 0.0 *)
  double_of_int : Z -> double;                (* int -> double *)
  double_of_size : nat -> double;             (* size_t -> double *)
  double_div : double -> double -> double     (* operator/ *)
}.

(** [std::stod]; [None] when it throws. *)
Class TextToDouble `{Floating} : Type := stod : string -> option double.

(** An arithmetic type [U] ([std::is_arithmetic_v<U>]): its
    [static_cast]s and its [std::to_string]. *)
Class Arithmetic (U : Type) : Type := {
  cast_int : U -> Z;
  cast_double : forall fp : Floating, U -> @double fp;
  cast_char : U -> ascii;
  arith_to_string : U -> string
}.

(** [int] as a source type: [static_cast<int>] is the identity,
    [static_cast<char>] keeps the low eight bits, [std::to_string] writes
    the decimal digits. *)
#[export] Instance int_arithmetic : Arithmetic Z := {
  cast_int := fun val => val;
  cast_double := @double_of_int;
  cast_char := fun val => ascii_of_N (Z.to_N (val mod 256));
  arith_to_string := Text.to_string
}.

(** The element types the [static_assert] of [to_int], [to_double] and
    [to_char] lets through, and that [to_string] treats by [if constexpr]:
    [std::string] or an arithmetic type.  (The last branch of [to_string],
    for any other type, writes through a [std::ostringstream]; the header
    does not include [<sstream>] and the branch is not modelled.) *)
Inductive convertible : Type -> Type :=
| from_string : convertible string
| from_arithmetic : forall U, Arithmetic U -> convertible U.

(** [char] as a source type.  Whether plain [char] is signed is the
    platform's choice: [static_cast<int>] of a character with the high
    bit set is negative where it is.  [std::to_string] has no overload for
    [char]; the argument is promoted to [int]. *)
Definition char_to_int (char_is_signed : bool) (c : ascii) : Z :=
  let code := Z.of_N (N_of_ascii c) in
  if char_is_signed && (128 <=? code)%Z then (code - 256)%Z else code.

Definition char_arithmetic (char_is_signed : bool) : Arithmetic ascii := {|
  cast_int := char_to_int char_is_signed;
  cast_double := fun fp c => double_of_int (char_to_int char_is_signed c);
  cast_char := fun c => c;
  arith_to_string := fun c => Text.to_string (char_to_int char_is_signed c)
|}.

(* ===================================================================== *)
(** ** Output *)
(* ===================================================================== *)

(** [operator<<] of the element type: the text it writes to a stream. *)
Class StreamOut (T : Type) : Type := stream_out : T -> string.

#[export] Instance int_stream_out : StreamOut Z := Text.to_string.

(** [a - b] in [size_t]: unsigned, wrapping at 2^64. *)
Definition SIZE_MODULUS : Z := 2 ^ 64.
Definition size_sub (a b : nat) : Z :=
  ((Z.of_nat a - Z.of_nat b) mod SIZE_MODULUS)%Z.

Module Cout.

(** The loop of [print], the same in both headers:
    [for (i = 0; i < size; ++i) { cout << m_data[i];
       if (i < size - 1) cout << " "; }].
    [rest] holds the elements from position [i] on; the result is the
    text written. *)
Fixpoint print_from {T} `{StreamOut T} (size i : nat) (rest : list T) : string :=
  match rest with
  | [] => EmptyString
  | x :: r =>
      (stream_out x
       ++ (if (Z.of_nat i <? size_sub size 1)%Z then " " else EmptyString)
       ++ print_from size (S i) r)%string
  end.

Definition newline : string := String (ascii_of_nat 10) EmptyString.

End Cout.

(* ===================================================================== *)
(** ** The full variant: include/advance_store.hpp *)
(* ===================================================================== *)

Module Full.

Record Store (T : Type) : Type := mkStore {
  m_data : StdVector.vector T
}.

Arguments mkStore {T} m_data.

Section Members.
Context {alloc : Allocator}.
Variable T : Type.

Local Open Scope method_scope.

(** Lift a [std::vector] call to the member [m_data]. *)
Definition on_data (f : StdVector.vector T -> option (StdVector.vector T))
  : method (Store T) unit :=
  update (fun self => option_map mkStore (f (m_data self))).

Definition set_data (f : StdVector.vector T -> StdVector.vector T)
  : method (Store T) unit :=
  fun self => Normal tt (mkStore (f (m_data self))).

(** A dereferenced iterator or reference: undefined when there is no
    element behind it. *)
Definition deref (x : Store T -> option T) : method (Store T) T :=
  fun self =>
    match x self with
    | Some v => Normal v self
    | None => Undefined
    end.

(** *** Constructors *)
Definition Store_default : Store T := mkStore (StdVector.create T).
Definition Store_sized `{Default T} (size : nat) : Store T :=
  mkStore (StdVector.create_sized value_init size).
Definition Store_list (list : list T) : Store T :=
  mkStore (StdVector.create_from list).

(** *** Capacity *)
Definition size (self : Store T) : nat := StdVector.size (m_data self).
Definition empty (self : Store T) : bool := StdVector.empty (m_data self).
Definition capacity (self : Store T) : nat := StdVector.capacity (m_data self).

(** [operator+=(Store<T>&& other)] *)
Definition plus_assign (other : Store T) : method (Store T) unit :=
  fun self =>
    on_data (StdVector.insert_range (size self)
               (StdVector.items (m_data other))) self.

(** *** Element access *)
Definition at_ (pos : nat) : method (Store T) T :=
  fun self =>
    if size self <=? pos then throw OutOfRange self
    else deref (fun s => StdVector.index (m_data s) pos) self.

Definition subscript (pos : nat) : method (Store T) T :=
  deref (fun s => StdVector.index (m_data s) pos).

Definition front : method (Store T) T :=
  fun self =>
    if empty self then throw OutOfRange self
    else deref (fun s => StdVector.front (m_data s)) self.

Definition mid : method (Store T) T :=
  fun self =>
    if empty self then throw OutOfRange self
    else deref (fun s => StdVector.index (m_data s) (size s / 2)) self.

Definition back : method (Store T) T :=
  fun self =>
    if empty self then throw OutOfRange self
    else deref (fun s => StdVector.back (m_data s)) self.

Definition max `{LtOp T} : method (Store T) T :=
  fun self =>
    if empty self then throw OutOfRange self
    else deref (fun s => Algo.max_element (StdVector.items (m_data s))) self.

Definition min `{LtOp T} : method (Store T) T :=
  fun self =>
    if empty self then throw OutOfRange self
    else deref (fun s => Algo.min_element (StdVector.items (m_data s))) self.

(** *** Basic operations *)
Definition reserve (new_capacity : nat) : method (Store T) unit :=
  set_data (StdVector.reserve new_capacity).

Definition resize `{Default T} (new_size : nat) : method (Store T) unit :=
  set_data (StdVector.resize value_init new_size).

Definition clear : method (Store T) unit := set_data (@StdVector.clear T).

Definition shrink_to_fit : method (Store T) unit :=
  set_data (@StdVector.shrink_to_fit _ T).

Definition pop_front : method (Store T) unit :=
  fun self =>
    if empty self then throw OutOfRange self
    else on_data (StdVector.erase 0) self.

Definition pop_back : method (Store T) unit :=
  fun self =>
    if empty self then throw OutOfRange self
    else on_data (@StdVector.pop_back T) self.

Definition remove_at (pos : nat) : method (Store T) unit :=
  fun self =>
    if size self <=? pos then throw OutOfRange self
    else on_data (StdVector.erase pos) self.

Definition insert (pos : nat) (value : T) : method (Store T) unit :=
  fun self =>
    if size self <? pos then throw OutOfRange self
    else on_data (StdVector.insert pos value) self.

Definition replace_at (pos : nat) (value : T) : method (Store T) unit :=
  fun self =>
    if size self <=? pos then throw OutOfRange self
    else on_data (StdVector.assign pos value) self.

Definition replace_all `{EqOp T} (old_value new_value : T)
  : method (Store T) unit :=
  set_data (StdVector.rewrite_items (Algo.replace old_value new_value)).

Definition fill (value : T) : method (Store T) unit :=
  set_data (StdVector.rewrite_items (Algo.fill value)).

Definition reverse : method (Store T) unit :=
  set_data (StdVector.rewrite_items (@Algo.reverse T)).

(** [swap(other)]: the two stores exchange their vectors; the result
    is the pair (this, other) after the call. *)
Definition swap (self other : Store T) : Store T * Store T :=
  (mkStore (m_data other), mkStore (m_data self)).

(** *** Adding elements *)
Definition push_front_range (container : list T) : method (Store T) unit :=
  on_data (StdVector.insert_range 0 container).

Definition push_front (value : T) : method (Store T) unit :=
  on_data (StdVector.insert 0 value).

Definition push_back_range (container : list T) : method (Store T) unit :=
  fun self => on_data (StdVector.insert_range (size self) container) self.

Definition push_back (value : T) : method (Store T) unit :=
  set_data (StdVector.push_back value).

Definition emplace_back (constructed : T) : method (Store T) unit :=
  set_data (StdVector.push_back constructed).

Definition emplace_front (constructed : T) : method (Store T) unit :=
  on_data (StdVector.insert 0 constructed).

(** *** Search and check *)
Definition contains `{EqOp T} (value : T) (self : Store T) : bool :=
  match Algo.find (StdVector.items (m_data self)) value with
  | Some _ => true
  | None => false
  end.

Definition any_of (pred : T -> bool) (self : Store T) : bool :=
  Algo.any_of pred (StdVector.items (m_data self)).
Definition all_of (pred : T -> bool) (self : Store T) : bool :=
  Algo.all_of pred (StdVector.items (m_data self)).
Definition none_of (pred : T -> bool) (self : Store T) : bool :=
  Algo.none_of pred (StdVector.items (m_data self)).

Fixpoint find_all_from (pred : T -> bool) (i : nat) (l : list T) : list nat :=
  match l with
  | [] => []
  | x :: r => if pred x then i :: find_all_from pred (S i) r
              else find_all_from pred (S i) r
  end.

Definition find_all_if (pred : T -> bool) (self : Store T) : list nat :=
  find_all_from pred 0 (StdVector.items (m_data self)).

Definition find_all `{EqOp T} (value : T) (self : Store T) : list nat :=
  find_all_from (fun x => eq_op x value) 0 (StdVector.items (m_data self)).

(** *** Transformation and filtering *)
Definition transform (func : T -> T) : method (Store T) unit :=
  set_data (StdVector.rewrite_items (map func)).

Definition filter (pred : T -> bool) : method (Store T) (Store T) :=
  fun self =>
    building Store_default
      (for_each (StdVector.items (m_data self))
         (fun elem => if pred elem then push_back elem else ret tt))
      self.

(** *** Sorting *)
Definition sort_by (comp : T -> T -> bool) : method (Store T) unit :=
  set_data (StdVector.rewrite_items (Algo.sort comp)).

Definition sort `{LtOp T} `{GtOp T} (ascending : bool) : method (Store T) unit :=
  if ascending then sort_by lt_op else sort_by gt_op.

Definition unique `{EqOp T} `{LtOp T} `{GtOp T} (auto_sort : bool)
  : method (Store T) unit :=
  (if auto_sort then sort true else ret tt) ;;
  (fun self =>
     let '(range, it) := Algo.unique (StdVector.items (m_data self)) in
     (set_data (StdVector.rewrite_items (fun _ => range)) ;;
      on_data (StdVector.erase_to_end it)) self).

End Members.

(** *** Type conversion *)
Section Conversion.
Context {alloc : Allocator}.
Variable U : Type.
Variable source : convertible U.

Local Open Scope method_scope.

Definition to_int_element : U -> method (Store Z) unit :=
  match source in convertible U return U -> method (Store Z) unit with
  | from_string => fun val =>
      match Text.stoi val with
      | inr n => push_back n
      | inl _ => push_back 0%Z
      end
  | from_arithmetic a => fun val => push_back (cast_int val)
  end.

Definition to_int : method (Store U) (Store Z) :=
  fun self =>
    if empty self then throw RuntimeError self
    else building (Store_default Z)
           (for_each (StdVector.items (m_data self)) to_int_element) self.

Context {fp : Floating} {parser : TextToDouble}.

Definition to_double_element : U -> method (Store double) unit :=
  match source in convertible U return U -> method (Store double) unit with
  | from_string => fun val =>
      match stod val with
      | Some d => push_back d
      | None => push_back double_zero
      end
  | from_arithmetic a => fun val => push_back (cast_double fp val)
  end.

Definition to_double : method (Store U) (Store double) :=
  fun self =>
    if empty self then throw RuntimeError self
    else building (Store_default double)
           (for_each (StdVector.items (m_data self)) to_double_element) self.

Definition to_char_element : U -> method (Store ascii) unit :=
  match source in convertible U return U -> method (Store ascii) unit with
  | from_string => fun val =>
      match val with
      | String c _ => push_back c
      | EmptyString => push_back zero
      end
  | from_arithmetic a => fun val => push_back (cast_char val)
  end.

Definition to_char : method (Store U) (Store ascii) :=
  fun self =>
    if empty self then throw RuntimeError self
    else building (Store_default ascii)
           (for_each (StdVector.items (m_data self)) to_char_element) self.

Definition to_string_element : U -> method (Store string) unit :=
  match source in convertible U return U -> method (Store string) unit with
  | from_string => fun val => push_back val
  | from_arithmetic a => fun val => push_back (arith_to_string val)
  end.

Definition to_string : method (Store U) (Store string) :=
  fun self =>
    if empty self then throw RuntimeError self
    else building (Store_default string)
           (for_each (StdVector.items (m_data self)) to_string_element) self.

End Conversion.

(** *** Histories of a store

    Each state-changing or throwing member function as a [call], and the
    stores that constructors and calls can produce. *)
Inductive call (T : Type) : Type :=
| call_at (pos : nat)
| call_subscript (pos : nat)
| call_write (pos : nat) (value : T)          (* s[pos] = value *)
| call_front
| call_mid
| call_back
| call_max (L : LtOp T)
| call_min (L : LtOp T)
| call_reserve (new_capacity : nat)
| call_resize (D : Default T) (new_size : nat)
| call_clear
| call_shrink_to_fit
| call_pop_front
| call_pop_back
| call_remove_at (pos : nat)
| call_insert (pos : nat) (value : T)
| call_replace_at (pos : nat) (value : T)
| call_replace_all (E : EqOp T) (old_value new_value : T)
| call_fill (value : T)
| call_reverse
| call_push_front_range (container : list T)
| call_push_front (value : T)
| call_push_back_range (container : list T)
| call_push_back (value : T)
| call_emplace_back (constructed : T)
| call_emplace_front (constructed : T)
| call_transform (func : T -> T)
| call_sort_by (comp : T -> T -> bool)
| call_sort (L : LtOp T) (G : GtOp T) (ascending : bool)
| call_unique (E : EqOp T) (L : LtOp T) (G : GtOp T) (auto_sort : bool).

Arguments call_at {T}.
Arguments call_subscript {T}.
Arguments call_write {T}.
Arguments call_front {T}.
Arguments call_mid {T}.
Arguments call_back {T}.
Arguments call_max {T}.
Arguments call_min {T}.
Arguments call_reserve {T}.
Arguments call_resize {T}.
Arguments call_clear {T}.
Arguments call_shrink_to_fit {T}.
Arguments call_pop_front {T}.
Arguments call_pop_back {T}.
Arguments call_remove_at {T}.
Arguments call_insert {T}.
Arguments call_replace_at {T}.
Arguments call_replace_all {T}.
Arguments call_fill {T}.
Arguments call_reverse {T}.
Arguments call_push_front_range {T}.
Arguments call_push_front {T}.
Arguments call_push_back_range {T}.
Arguments call_push_back {T}.
Arguments call_emplace_back {T}.
Arguments call_emplace_front {T}.
Arguments call_transform {T}.
Arguments call_sort_by {T}.
Arguments call_sort {T}.
Arguments call_unique {T}.

Definition discard {S A} (m : method S A) : method S unit :=
  (m ;; ret tt)%method.

Definition exec {alloc : Allocator} {T} (c : call T) : method (Store T) unit :=
  match c with
  | call_at pos => discard (at_ pos)
  | call_subscript pos => discard (subscript pos)
  | call_write pos value => on_data (StdVector.assign pos value)
  | call_front => discard (@front T)
  | call_mid => discard (@mid T)
  | call_back => discard (@back T)
  | call_max L => discard (max (T:=T))
  | call_min L => discard (min (T:=T))
  | call_reserve new_capacity => reserve new_capacity
  | call_resize D new_size => resize new_size
  | call_clear => clear (T:=T)
  | call_shrink_to_fit => shrink_to_fit (T:=T)
  | call_pop_front => pop_front (T:=T)
  | call_pop_back => pop_back (T:=T)
  | call_remove_at pos => remove_at pos
  | call_insert pos value => insert pos value
  | call_replace_at pos value => replace_at pos value
  | call_replace_all E old_value new_value => replace_all old_value new_value
  | call_fill value => fill value
  | call_reverse => reverse (T:=T)
  | call_push_front_range container => push_front_range container
  | call_push_front value => push_front value
  | call_push_back_range container => push_back_range container
  | call_push_back value => push_back value
  | call_emplace_back constructed => emplace_back constructed
  | call_emplace_front constructed => emplace_front constructed
  | call_transform func => transform func
  | call_sort_by comp => sort_by comp
  | call_sort L G ascending => sort ascending
  | call_unique E L G auto_sort => unique auto_sort
  end.

(** The stores a program can hold: built by a constructor, changed by a
    call that returned or threw, swapped or appended with another such
    store, or returned by [filter] or a typed conversion. *)
Inductive reachable {alloc : Allocator} : forall T : Type, Store T -> Prop :=
| reach_default : forall T, reachable (Store_default T)
| reach_sized : forall T (D : Default T) n, reachable (Store_sized n)
| reach_list : forall T (l : list T), reachable (Store_list l)
| reach_call : forall T (c : call T) s s',
    reachable s -> state_after (exec c s) = Some s' -> reachable s'
| reach_plus_assign : forall T (s other s' : Store T),
    reachable s -> reachable other ->
    state_after (plus_assign other s) = Some s' -> reachable s'
| reach_swap_this : forall T (s other : Store T),
    reachable s -> reachable other -> reachable (fst (swap s other))
| reach_swap_other : forall T (s other : Store T),
    reachable s -> reachable other -> reachable (snd (swap s other))
| reach_filter : forall T pred (s s' r : Store T),
    reachable s -> filter pred s = Normal r s' -> reachable r
| reach_to_int : forall U (src : convertible U) s s' r,
    reachable s -> to_int src s = Normal r s' -> reachable r
| reach_to_double : forall (fp : Floating) (parser : TextToDouble)
                           U (src : convertible U) s s' r,
    reachable s -> to_double src s = Normal r s' -> reachable r
| reach_to_char : forall U (src : convertible U) s s' r,
    reachable s -> to_char src s = Normal r s' -> reachable r
| reach_to_string : forall U (src : convertible U) s s' r,
    reachable s -> to_string src s = Normal r s' -> reachable r.

(** The only precondition the full variant leaves unchecked: the position
    given to [operator[]]. *)
Definition precondition {T} (c : call T) (s : Store T) : bool :=
  match c with
  | call_subscript pos => pos <? size s
  | call_write pos _ => pos <? size s
  | _ => true
  end.

(** [any_of(const T&)], [all_of(const T&)], [none_of(const T&)]: the
    overloads that compare every element with a value. *)
Definition any_of_value {T} `{EqOp T} (value : T) (self : Store T) : bool :=
  Algo.any_of (fun elem => eq_op elem value) (StdVector.items (m_data self)).
Definition all_of_value {T} `{EqOp T} (value : T) (self : Store T) : bool :=
  Algo.all_of (fun elem => eq_op elem value) (StdVector.items (m_data self)).
Definition none_of_value {T} `{EqOp T} (value : T) (self : Store T) : bool :=
  Algo.none_of (fun elem => eq_op elem value) (StdVector.items (m_data self)).

(** [print(new_line)]: the text written to [cout]. *)
Definition print {T} `{StreamOut T} (new_line : bool) (self : Store T) : string :=
  (Cout.print_from (size self) 0 (StdVector.items (m_data self))
   ++ (if new_line then Cout.newline else EmptyString))%string.

End Full.

(* ===================================================================== *)
(** ** The minimal variant: include/advance_store_mini.hpp *)
(* ===================================================================== *)

(** [operator+] of the element type, and its [static_cast<double>]. *)
Class PlusOp (T : Type) : Type := plus_op : T -> T -> T.
Class ToDouble `{Floating} (T : Type) : Type := static_cast_double : T -> double.

(** [int]: [+] without overflow (signed overflow is undefined and not
    modelled), and the conversion to [double]. *)
#[export] Instance int_plus : PlusOp Z := Z.add.
#[export] Instance int_to_double `{Floating} : ToDouble Z := double_of_int.

Module Mini.

Record Store (T : Type) : Type := mkStore {
  m_data : StdVector.vector T
}.

Arguments mkStore {T} m_data.

Section Members.
Context {alloc : Allocator}.
Variable T : Type.

Local Open Scope method_scope.

Definition on_data (f : StdVector.vector T -> option (StdVector.vector T))
  : method (Store T) unit :=
  update (fun self => option_map mkStore (f (m_data self))).

Definition set_data (f : StdVector.vector T -> StdVector.vector T)
  : method (Store T) unit :=
  fun self => Normal tt (mkStore (f (m_data self))).

Definition deref (x : Store T -> option T) : method (Store T) T :=
  fun self =>
    match x self with
    | Some v => Normal v self
    | None => Undefined
    end.

(** *** Constructors *)
Definition Store_default : Store T := mkStore (StdVector.create T).
Definition Store_sized `{Default T} (size : nat) : Store T :=
  mkStore (StdVector.create_sized value_init size).
Definition Store_list (list : list T) : Store T :=
  mkStore (StdVector.create_from list).

(** *** Element access *)
Definition subscript (pos : nat) : method (Store T) T :=
  deref (fun s => StdVector.index (m_data s) pos).

Definition at_ (pos : nat) : method (Store T) T :=
  fun self =>
    match StdVector.at_ (m_data self) pos with
    | inr x => Normal x self
    | inl e => Raised e self
    end.

Definition front : method (Store T) T :=
  deref (fun s => StdVector.front (m_data s)).

Definition back : method (Store T) T :=
  deref (fun s => StdVector.back (m_data s)).

(** *** Capacity *)
Definition size (self : Store T) : nat := StdVector.size (m_data self).
Definition empty (self : Store T) : bool := StdVector.empty (m_data self).
Definition capacity (self : Store T) : nat := StdVector.capacity (m_data self).

Definition reserve (new_capacity : nat) : method (Store T) unit :=
  set_data (StdVector.reserve new_capacity).

Definition resize `{Default T} (new_size : nat) : method (Store T) unit :=
  set_data (StdVector.resize value_init new_size).

Definition shrink_to_fit : method (Store T) unit :=
  set_data (@StdVector.shrink_to_fit _ T).

(** *** Modifiers *)
Definition clear : method (Store T) unit := set_data (@StdVector.clear T).

Definition push_front (value : T) : method (Store T) unit :=
  on_data (StdVector.insert 0 value).

Definition pop_front : method (Store T) unit :=
  fun self =>
    if negb (empty self) then on_data (StdVector.erase 0) self
    else ret tt self.

Definition push_back (value : T) : method (Store T) unit :=
  set_data (StdVector.push_back value).

Definition pop_back : method (Store T) unit :=
  on_data (@StdVector.pop_back T).

Definition emplace_back (constructed : T) : method (Store T) unit :=
  set_data (StdVector.push_back constructed).

Definition emplace_front (constructed : T) : method (Store T) unit :=
  on_data (StdVector.insert 0 constructed).

(** *** Utility functions *)
Definition max `{LtOp T} : method (Store T) T :=
  deref (fun s => Algo.max_element (StdVector.items (m_data s))).

Definition min `{LtOp T} : method (Store T) T :=
  deref (fun s => Algo.min_element (StdVector.items (m_data s))).

Definition mid : method (Store T) T :=
  deref (fun s => StdVector.index (m_data s) (size s / 2)).

Definition contains `{EqOp T} (value : T) (self : Store T) : bool :=
  match Algo.find (StdVector.items (m_data self)) value with
  | Some _ => true
  | None => false
  end.

Definition fill (value : T) : method (Store T) unit :=
  set_data (StdVector.rewrite_items (Algo.fill value)).

Definition reverse : method (Store T) unit :=
  set_data (StdVector.rewrite_items (@Algo.reverse T)).

Definition sort_by (comp : T -> T -> bool) : method (Store T) unit :=
  set_data (StdVector.rewrite_items (Algo.sort comp)).

Definition sort `{LtOp T} `{GtOp T} (ascending : bool) : method (Store T) unit :=
  if ascending then sort_by lt_op else sort_by gt_op.

Definition unique `{EqOp T} : method (Store T) unit :=
  fun self =>
    let '(range, it) := Algo.unique (StdVector.items (m_data self)) in
    (set_data (StdVector.rewrite_items (fun _ => range)) ;;
     on_data (StdVector.erase_to_end it)) self.

Definition remove_at (pos : nat) : method (Store T) unit :=
  fun self =>
    if pos <? size self then on_data (StdVector.erase pos) self
    else ret tt self.

Definition insert (pos : nat) (value : T) : method (Store T) unit :=
  fun self =>
    if pos <=? size self then on_data (StdVector.insert pos value) self
    else ret tt self.

Definition replace_all `{EqOp T} (old_value new_value : T)
  : method (Store T) unit :=
  set_data (StdVector.rewrite_items (Algo.replace old_value new_value)).

Definition sum `{Default T} `{PlusOp T} (self : Store T) : T :=
  Algo.accumulate plus_op value_init (StdVector.items (m_data self)).

Definition average `{Floating} `{Default T} `{PlusOp T} `{!ToDouble T}
  (self : Store T) : double :=
  if empty self then double_zero
  else double_div (static_cast_double (sum self)) (double_of_size (size self)).

(** *** Search operations *)

(** [find] returns [int]: the distance, narrowed to 32 bits, or -1. *)
Definition find `{EqOp T} (value : T) (self : Store T) : Z :=
  match Algo.find (StdVector.items (m_data self)) value with
  | Some i => ((Z.of_nat i + 2 ^ 31) mod 2 ^ 32 - 2 ^ 31)%Z
  | None => (-1)%Z
  end.

Definition count `{EqOp T} (value : T) (self : Store T) : nat :=
  Algo.count (StdVector.items (m_data self)) value.

Definition any (pred : T -> bool) (self : Store T) : bool :=
  Algo.any_of pred (StdVector.items (m_data self)).
Definition all (pred : T -> bool) (self : Store T) : bool :=
  Algo.all_of pred (StdVector.items (m_data self)).

End Members.

(** *** Histories of a store *)
Inductive call (T : Type) : Type :=
| call_subscript (pos : nat)
| call_at (pos : nat)
| call_write (pos : nat) (value : T)          (* s[pos] = value *)
| call_front
| call_back
| call_reserve (new_capacity : nat)
| call_resize (D : Default T) (new_size : nat)
| call_shrink_to_fit
| call_clear
| call_push_front (value : T)
| call_pop_front
| call_push_back (value : T)
| call_pop_back
| call_emplace_back (constructed : T)
| call_emplace_front (constructed : T)
| call_max (L : LtOp T)
| call_min (L : LtOp T)
| call_mid
| call_fill (value : T)
| call_reverse
| call_sort_by (comp : T -> T -> bool)
| call_sort (L : LtOp T) (G : GtOp T) (ascending : bool)
| call_unique (E : EqOp T)
| call_remove_at (pos : nat)
| call_insert (pos : nat) (value : T)
| call_replace_all (E : EqOp T) (old_value new_value : T).

Arguments call_subscript {T}.
Arguments call_at {T}.
Arguments call_write {T}.
Arguments call_front {T}.
Arguments call_back {T}.
Arguments call_reserve {T}.
Arguments call_resize {T}.
Arguments call_shrink_to_fit {T}.
Arguments call_clear {T}.
Arguments call_push_front {T}.
Arguments call_pop_front {T}.
Arguments call_push_back {T}.
Arguments call_pop_back {T}.
Arguments call_emplace_back {T}.
Arguments call_emplace_front {T}.
Arguments call_max {T}.
Arguments call_min {T}.
Arguments call_mid {T}.
Arguments call_fill {T}.
Arguments call_reverse {T}.
Arguments call_sort_by {T}.
Arguments call_sort {T}.
Arguments call_unique {T}.
Arguments call_remove_at {T}.
Arguments call_insert {T}.
Arguments call_replace_all {T}.

Definition discard {S A} (m : method S A) : method S unit :=
  (m ;; ret tt)%method.

Definition exec {alloc : Allocator} {T} (c : call T) : method (Store T) unit :=
  match c with
  | call_subscript pos => discard (subscript pos)
  | call_at pos => discard (at_ pos)
  | call_write pos value => on_data (StdVector.assign pos value)
  | call_front => discard (@front T)
  | call_back => discard (@back T)
  | call_reserve new_capacity => reserve new_capacity
  | call_resize D new_size => resize new_size
  | call_shrink_to_fit => shrink_to_fit (T:=T)
  | call_clear => clear (T:=T)
  | call_push_front value => push_front value
  | call_pop_front => pop_front (T:=T)
  | call_push_back value => push_back value
  | call_pop_back => pop_back (T:=T)
  | call_emplace_back constructed => emplace_back constructed
  | call_emplace_front constructed => emplace_front constructed
  | call_max L => discard (max (T:=T))
  | call_min L => discard (min (T:=T))
  | call_mid => discard (@mid T)
  | call_fill value => fill value
  | call_reverse => reverse (T:=T)
  | call_sort_by comp => sort_by comp
  | call_sort L G ascending => sort ascending
  | call_unique E => unique (T:=T)
  | call_remove_at pos => remove_at pos
  | call_insert pos value => insert pos value
  | call_replace_all E old_value new_value => replace_all old_value new_value
  end.

(** The stores a program can hold: built by a constructor and changed by
    calls that returned or threw.  A call with undefined behaviour ends
    the history: there is no state after it. *)
Inductive reachable {alloc : Allocator} : forall T : Type, Store T -> Prop :=
| reach_default : forall T, reachable (Store_default T)
| reach_sized : forall T (D : Default T) n, reachable (Store_sized n)
| reach_list : forall T (l : list T), reachable (Store_list l)
| reach_call : forall T (c : call T) s s',
    reachable s -> state_after (exec c s) = Some s' -> reachable s'.

(** The preconditions the minimal variant leaves unchecked: the position
    given to [operator[]], and a non-empty store for [front], [back],
    [max], [min], [mid] and [pop_back]. *)
Definition precondition {T} (c : call T) (s : Store T) : bool :=
  match c with
  | call_subscript pos => pos <? size s
  | call_write pos _ => pos <? size s
  | call_front => negb (empty s)
  | call_back => negb (empty s)
  | call_max _ => negb (empty s)
  | call_min _ => negb (empty s)
  | call_mid => negb (empty s)
  | call_pop_back => negb (empty s)
  | _ => true
  end.

(** The invariant holds in the state a call leaves behind. *)
Definition invariant_after {T} (o : outcome (Store T) unit) : Prop :=
  exists s', state_after o = Some s' /\ size s' <= capacity s'.

(** [print(new_line)]: the text written to [std::cout]. *)
Definition print {T} `{StreamOut T} (new_line : bool) (self : Store T) : string :=
  (Cout.print_from (size self) 0 (StdVector.items (m_data self))
   ++ (if new_line then Cout.newline else EmptyString))%string.

End Mini.

(* ===================================================================== *)
(** ** The two variants side by side *)
(* ===================================================================== *)

Module Variants.

(** The same vector, held by a store of the other variant. *)
Definition to_mini {T} (s : Full.Store T) : Mini.Store T :=
  Mini.mkStore (Full.m_data s).



End Variants.

(* ===================================================================== *)
(** ** Concrete platforms, for evaluating on examples *)
(* ===================================================================== *)

(** The capacities libstdc++ chooses: exact allocation on construction,
    [reserve] and [shrink_to_fit], doubling on growth. *)
Definition libstdcxx : Allocator :=
  Build_Allocator
    (fun n => n)
    (fun c n => Nat.max (2 * c) n)
    (fun _ n => n)
    (fun _ n => n)
    (fun n => le_n n)
    (fun c n => Nat.le_max_r (2 * c) n)
    (fun _ n => le_n n)
    (fun _ n _ => le_n n).

(** [double] values as the expressions that produce them: each value
    records which conversions and divisions were performed. *)
Inductive traced_double : Type :=
| traced_zero
| traced_of_int (z : Z)
| traced_of_size (n : nat)
| traced_div (a b : traced_double).

Definition traced : Floating :=
  Build_Floating traced_zero traced_of_int traced_of_size traced_div.

(* ===================================================================== *)
(** * Properties *)
(* ===================================================================== *)

#[export] Instance int_total_order : TotalOrder Z.
Proof.
  split; unfold eq_op, lt_op, gt_op, int_eq, int_lt, int_gt.
  - intros x y. apply Z.eqb_eq.
  - intro x. apply Z.ltb_irrefl.
  - intros x y z Hxy Hyz. apply Z.ltb_lt in Hxy, Hyz. apply Z.ltb_lt. lia.
  - intros x y. rewrite !Z.ltb_lt. lia.
  - intros x y. rewrite Z.gtb_ltb. reflexivity.
Qed.

(** ** Outcomes *)

Lemma guarded_by_intro {S A} (m : S -> outcome S A) (e : exn) (bad : Prop) (s : S) :
  (bad -> m s = Raised e s) ->
  (~ bad -> raises_nothing (m s)) ->
  bad \/ ~ bad ->
  guarded_by m e bad s.
Proof.
  intros Hbad Hgood Hdec. unfold guarded_by, raises.
  repeat split.
  - intros [s' Hr]. destruct Hdec as [Hb | Hn]; [exact Hb |].
    destruct (Hgood Hn) as (a & s'' & Hok). congruence.
  - intro Hb. exists s. auto.
  - destruct Hdec as [Hb | Hn].
    + rewrite (Hbad Hb) in H. congruence.
    + destruct (Hgood Hn) as (a & s'' & Hok). congruence.
  - destruct Hdec as [Hb | Hn].
    + rewrite (Hbad Hb) in H. congruence.
    + destruct (Hgood Hn) as (a & s'' & Hok). congruence.
  - exact Hgood.
Qed.

Lemma bool_true_or_not (b : bool) : b = true \/ ~ b = true.
Proof. destruct b; [left | right]; congruence. Qed.

(** ** std::vector facts *)

Section VectorFacts.
Context {alloc : Allocator}.
Variable T : Type.
Implicit Types (v : StdVector.vector T) (l : list T).

Lemma vector_empty_size v :
  StdVector.empty v = true <-> StdVector.size v = 0.
Proof.
  unfold StdVector.empty, StdVector.size.
  destruct (StdVector.items v); simpl; split; congruence.
Qed.

Lemma vector_empty_false_size v :
  StdVector.empty v = false <-> 0 < StdVector.size v.
Proof.
  unfold StdVector.empty, StdVector.size.
  destruct (StdVector.items v); simpl; split; intros; try congruence; lia.
Qed.

Lemma vector_index_in_range v pos :
  pos < StdVector.size v ->
  exists x, StdVector.index v pos = Some x.
Proof.
  unfold StdVector.size, StdVector.index. intro Hlt.
  destruct (nth_error (StdVector.items v) pos) eqn:E; [eauto |].
  apply nth_error_None in E. lia.
Qed.

(** [std::vector::at] throws exactly past the end. *)
Lemma vector_at_out_of_range v pos :
  StdVector.size v <= pos -> StdVector.at_ v pos = inl OutOfRange.
Proof.
  intro Hle. unfold StdVector.at_.
  apply Nat.leb_le in Hle. rewrite Hle. reflexivity.
Qed.

Lemma vector_at_in_range v pos :
  pos < StdVector.size v ->
  exists x, nth_error (StdVector.items v) pos = Some x /\
            StdVector.at_ v pos = inr x.
Proof.
  intro Hlt. unfold StdVector.at_.
  destruct (vector_index_in_range v Hlt) as [x Hx].
  unfold StdVector.index in Hx.
  apply Nat.leb_gt in Hlt. rewrite Hlt, Hx. eauto.
Qed.

End VectorFacts.

(** ** Element access of the full variant *)

Section FullAccess.
Variable T : Type.
Implicit Types (s : Full.Store T).

(** A member of the shape [if (bad) throw; return *x;] where [x] can be
    dereferenced whenever [bad] is false. *)
Lemma full_guarded_deref (bad : Full.Store T -> bool)
      (x : Full.Store T -> option T) s :
  (bad s = false -> exists v, x s = Some v) ->
  guarded_by
    (fun self => if bad self then throw OutOfRange self else Full.deref x self)
    OutOfRange (bad s = true) s.
Proof.
  intro Hx. apply guarded_by_intro.
  - intro Hb. rewrite Hb. reflexivity.
  - intro Hb. apply not_true_is_false in Hb. rewrite Hb.
    destruct (Hx Hb) as [v Hv]. exists v, s.
    unfold Full.deref. rewrite Hv. reflexivity.
  - apply bool_true_or_not.
Qed.

Lemma full_at_guarded s pos :
  guarded_by (Full.at_ pos) OutOfRange (Full.size s <= pos) s.
Proof.
  apply guarded_by_intro.
  - intro Hle. unfold Full.at_. apply Nat.leb_le in Hle. rewrite Hle.
    reflexivity.
  - intro Hgt. unfold Full.at_, Full.deref.
    assert (Hlt : pos < Full.size s) by lia.
    destruct (vector_index_in_range (Full.m_data s) Hlt) as [x Hx].
    apply Nat.leb_gt in Hlt. rewrite Hlt, Hx. exists x, s. reflexivity.
  - lia.
Qed.

Lemma full_at_in_range s pos :
  pos < Full.size s ->
  exists x, nth_error (StdVector.items (Full.m_data s)) pos = Some x /\
            Full.at_ pos s = Normal x s.
Proof.
  intro Hlt. unfold Full.at_, Full.deref.
  destruct (vector_index_in_range (Full.m_data s) Hlt) as [x Hx].
  exists x. split; [exact Hx |].
  apply Nat.leb_gt in Hlt. rewrite Hlt, Hx. reflexivity.
Qed.

Lemma full_front_guarded s :
  guarded_by (@Full.front T) OutOfRange (Full.empty s = true) s.
Proof.
  apply (full_guarded_deref (@Full.empty T)
           (fun s => StdVector.front (Full.m_data s))).
  unfold Full.empty, StdVector.empty, StdVector.front.
  destruct (StdVector.items (Full.m_data s)); [discriminate | simpl; eauto].
Qed.

Lemma full_back_guarded s :
  guarded_by (@Full.back T) OutOfRange (Full.empty s = true) s.
Proof.
  apply (full_guarded_deref (@Full.empty T)
           (fun s => StdVector.back (Full.m_data s))).
  unfold Full.empty, StdVector.empty, StdVector.back.
  destruct (StdVector.items (Full.m_data s)); [discriminate | eauto].
Qed.

Lemma full_mid_guarded s :
  guarded_by (@Full.mid T) OutOfRange (Full.empty s = true) s.
Proof.
  apply (full_guarded_deref (@Full.empty T)
           (fun s => StdVector.index (Full.m_data s) (Full.size s / 2))).
  intro Hne. apply vector_index_in_range.
  apply vector_empty_false_size in Hne.
  apply Nat.div_lt; [exact Hne | lia].
Qed.

Lemma full_max_guarded (L : LtOp T) s :
  guarded_by (Full.max (T:=T)) OutOfRange (Full.empty s = true) s.
Proof.
  apply (full_guarded_deref (@Full.empty T)
           (fun s => Algo.max_element (StdVector.items (Full.m_data s)))).
  unfold Full.empty, StdVector.empty, Algo.max_element.
  destruct (StdVector.items (Full.m_data s)); [discriminate | eauto].
Qed.

Lemma full_min_guarded (L : LtOp T) s :
  guarded_by (Full.min (T:=T)) OutOfRange (Full.empty s = true) s.
Proof.
  apply (full_guarded_deref (@Full.empty T)
           (fun s => Algo.min_element (StdVector.items (Full.m_data s)))).
  unfold Full.empty, StdVector.empty, Algo.min_element.
  destruct (StdVector.items (Full.m_data s)); [discriminate | eauto].
Qed.

End FullAccess.

(** C4. In the full variant [at(pos)] throws OutOfRange exactly when
    [pos >= size] and otherwise returns the element at [pos]; [front],
    [back], [max], [min] and [mid] throw OutOfRange exactly when the store
    is empty; whenever one of them throws, the store is unchanged, and
    none of them throws anything else. *)
Theorem full_bounds_checking (T : Type) (L : LtOp T) (s : Full.Store T) :
  (forall pos,
      guarded_by (Full.at_ pos) OutOfRange (Full.size s <= pos) s /\
      (pos < Full.size s ->
       exists x, nth_error (StdVector.items (Full.m_data s)) pos = Some x /\
                 Full.at_ pos s = Normal x s)) /\
  guarded_by (@Full.front T) OutOfRange (Full.empty s = true) s /\
  guarded_by (@Full.back T) OutOfRange (Full.empty s = true) s /\
  guarded_by (Full.max (T:=T)) OutOfRange (Full.empty s = true) s /\
  guarded_by (Full.min (T:=T)) OutOfRange (Full.empty s = true) s /\
  guarded_by (@Full.mid T) OutOfRange (Full.empty s = true) s.
Proof.
  refine (conj _ (conj (full_front_guarded s) (conj (full_back_guarded s)
           (conj (full_max_guarded L s) (conj (full_min_guarded L s)
              (full_mid_guarded s)))))).
  intro pos. split.
  - apply full_at_guarded.
  - apply full_at_in_range.
Qed.

Lemma full_bounds_checking_witness :
  raises (Full.at_ 5 (@Full.Store_list libstdcxx Z [1; 2; 3]%Z)) OutOfRange /\
  Full.at_ 1 (@Full.Store_list libstdcxx Z [1; 2; 3]%Z)
    = Normal 2%Z (@Full.Store_list libstdcxx Z [1; 2; 3]%Z) /\
  raises (Full.front (@Full.Store_default libstdcxx Z)) OutOfRange /\
  raises (Full.max (@Full.Store_default libstdcxx Z)) OutOfRange.
Proof.
  destruct (full_bounds_checking int_lt (@Full.Store_list libstdcxx Z [1; 2; 3]%Z))
    as [Hat _].
  destruct (full_bounds_checking int_lt (@Full.Store_default libstdcxx Z))
    as (_ & Hfront & _ & Hmax & _).
  split; [| split; [| split]].
  - destruct (Hat 5) as [[[_ Hr] _] _]. apply Hr. cbv. lia.
  - destruct (Hat 1) as [_ Hin].
    destruct Hin as (x & Hx & Hcall); [cbv; lia |].
    simpl in Hx. injection Hx as <-. exact Hcall.
  - destruct Hfront as [[_ Hr] _]. apply Hr. reflexivity.
  - destruct Hmax as [[_ Hr] _]. apply Hr. reflexivity.
Defined.

(** ** Element access of the minimal variant *)

(** C9. The minimal variant's [at(pos)] goes through [std::vector::at]:
    it throws an out-of-range error exactly when [pos >= size], leaving
    the store as it was, and otherwise returns the element at [pos]; it
    never has undefined behaviour. *)
Theorem mini_at_is_checked (T : Type) (s : Mini.Store T) (pos : nat) :
  guarded_by (Mini.at_ pos) OutOfRange (Mini.size s <= pos) s /\
  (pos < Mini.size s ->
   exists x, nth_error (StdVector.items (Mini.m_data s)) pos = Some x /\
             Mini.at_ pos s = Normal x s) /\
  Mini.at_ pos s <> Undefined.
Proof.
  assert (Hout : Mini.size s <= pos -> Mini.at_ pos s = Raised OutOfRange s).
  { intro Hle. unfold Mini.at_.
    rewrite (vector_at_out_of_range (Mini.m_data s) Hle). reflexivity. }
  assert (Hin : pos < Mini.size s ->
                exists x, nth_error (StdVector.items (Mini.m_data s)) pos = Some x /\
                          Mini.at_ pos s = Normal x s).
  { intro Hlt. unfold Mini.at_.
    destruct (vector_at_in_range (Mini.m_data s) Hlt) as (x & Hx & Hat).
    exists x. rewrite Hat. auto. }
  split; [| split].
  - apply guarded_by_intro.
    + exact Hout.
    + intro Hgt. destruct Hin as (x & _ & Hcall); [lia |].
      exists x, s. exact Hcall.
    + lia.
  - exact Hin.
  - destruct (Nat.le_gt_cases (Mini.size s) pos) as [Hle | Hlt].
    + rewrite (Hout Hle). discriminate.
    + destruct (Hin Hlt) as (x & _ & Hcall). rewrite Hcall. discriminate.
Qed.

Lemma mini_at_is_checked_witness :
  raises (Mini.at_ 5 (@Mini.Store_list libstdcxx Z [1; 2; 3]%Z)) OutOfRange /\
  Mini.at_ 2 (@Mini.Store_list libstdcxx Z [1; 2; 3]%Z)
    = Normal 3%Z (@Mini.Store_list libstdcxx Z [1; 2; 3]%Z).
Proof.
  split.
  - destruct (mini_at_is_checked (@Mini.Store_list libstdcxx Z [1; 2; 3]%Z) 5)
      as [[[_ Hr] _] _].
    apply Hr. cbv. lia.
  - destruct (mini_at_is_checked (@Mini.Store_list libstdcxx Z [1; 2; 3]%Z) 2)
      as (_ & Hin & _).
    destruct Hin as (x & Hx & Hcall); [cbv; lia |].
    simpl in Hx. injection Hx as <-. exact Hcall.
Defined.

(** ** pop_front *)

(** C6. On an empty store the full variant's [pop_front] throws
    OutOfRange and the minimal variant's returns without doing anything;
    both leave the store unchanged.  On a non-empty store both return
    after removing exactly the first element: what was at position [i+1]
    is now at position [i]. *)
Theorem pop_front_divergence (T : Type) :
  (forall s : Full.Store T,
      Full.empty s = true -> Full.pop_front s = Raised OutOfRange s) /\
  (forall s : Mini.Store T,
      Mini.empty s = true -> Mini.pop_front s = Normal tt s) /\
  (forall (s : Full.Store T) x rest,
      StdVector.items (Full.m_data s) = x :: rest ->
      Full.pop_front s
      = Normal tt (Full.mkStore (StdVector.mkVector rest (Full.capacity s)))) /\
  (forall (s : Mini.Store T) x rest,
      StdVector.items (Mini.m_data s) = x :: rest ->
      Mini.pop_front s
      = Normal tt (Mini.mkStore (StdVector.mkVector rest (Mini.capacity s)))).
Proof.
  repeat split.
  - intros s He. unfold Full.pop_front. rewrite He. reflexivity.
  - intros s He. unfold Mini.pop_front. rewrite He. reflexivity.
  - intros [[l c]] x rest Hl. simpl in Hl. subst l. reflexivity.
  - intros [[l c]] x rest Hl. simpl in Hl. subst l. reflexivity.
Qed.

Lemma pop_front_divergence_witness :
  Full.pop_front (@Full.Store_default libstdcxx Z)
    = Raised OutOfRange (@Full.Store_default libstdcxx Z) /\
  Mini.pop_front (@Mini.Store_default libstdcxx Z)
    = Normal tt (@Mini.Store_default libstdcxx Z) /\
  Full.pop_front (@Full.Store_list libstdcxx Z [1; 2; 3]%Z)
    = Normal tt (Full.mkStore (StdVector.mkVector [2; 3]%Z 3)) /\
  Mini.pop_front (@Mini.Store_list libstdcxx Z [1; 2; 3]%Z)
    = Normal tt (Mini.mkStore (StdVector.mkVector [2; 3]%Z 3)).
Proof.
  destruct (pop_front_divergence Z) as (Hfe & Hme & Hf & Hm).
  split; [| split; [| split]].
  - apply Hfe. reflexivity.
  - apply Hme. reflexivity.
  - apply (Hf (@Full.Store_list libstdcxx Z [1; 2; 3]%Z) 1%Z [2; 3]%Z).
    reflexivity.
  - apply (Hm (@Mini.Store_list libstdcxx Z [1; 2; 3]%Z) 1%Z [2; 3]%Z).
    reflexivity.
Defined.

(** ** Loops that fill a local store *)

Section FullLoops.
Context {alloc : Allocator}.
Variables X T : Type.

Local Abbreviation items_of r := (StdVector.items (Full.m_data r)).

Lemma full_push_back_items (value : T) (r : Full.Store T) :
  exists r', Full.push_back value r = Normal tt r' /\
             items_of r' = items_of r ++ [value].
Proof. eexists. split; reflexivity. Qed.

(** If every iteration returns after appending [g x], the loop returns
    after appending all of them in order. *)
Lemma full_for_each_appends (g : X -> list T)
      (body : X -> method (Full.Store T) unit) :
  (forall x r, exists r', body x r = Normal tt r' /\
                          items_of r' = items_of r ++ g x) ->
  forall l r, exists r', for_each l body r = Normal tt r' /\
                         items_of r' = items_of r ++ flat_map g l.
Proof.
  intros Hbody l. induction l as [| x l IH]; intro r; simpl.
  - exists r. rewrite app_nil_r. split; reflexivity.
  - destruct (Hbody x r) as (r1 & H1 & I1).
    destruct (IH r1) as (r2 & H2 & I2).
    exists r2. unfold bind. rewrite H1. split; [exact H2 |].
    rewrite I2, I1, <- app_assoc. reflexivity.
Qed.

(** A loop that pushes [f val] for every element collects [map f]. *)
Lemma full_collect (f : X -> T) (body : X -> method (Full.Store T) unit) :
  (forall x r, body x r = Full.push_back (f x) r) ->
  forall l (self : Full.Store X),
  exists r, building (Full.Store_default T) (for_each l body) self = Normal r self /\
            items_of r = map f l.
Proof.
  intros Hbody l self.
  destruct (full_for_each_appends (fun x => [f x]) body) with (l := l)
    (r := Full.Store_default T) as (r & Hr & Hi).
  { intros x r. rewrite Hbody. apply full_push_back_items. }
  exists r. unfold building. rewrite Hr. split; [reflexivity |].
  rewrite Hi. simpl.
  clear. induction l as [| x l IH]; simpl; [reflexivity | now rewrite IH].
Qed.

End FullLoops.

(** ** filter *)

Lemma flat_map_filter {T} (pred : T -> bool) (l : list T) :
  flat_map (fun x => if pred x then [x] else []) l = filter pred l.
Proof.
  induction l as [| x l IH]; simpl; [reflexivity |].
  rewrite IH. destruct (pred x); reflexivity.
Qed.

(** C5. [filter(pred)] returns a new store holding exactly the elements
    that satisfy [pred], in their original relative order, and leaves the
    store it is called on unchanged. *)
Theorem filter_selects_in_order {alloc : Allocator} (T : Type)
        (pred : T -> bool) (s : Full.Store T) :
  exists r, Full.filter pred s = Normal r s /\
            StdVector.items (Full.m_data r)
            = List.filter pred (StdVector.items (Full.m_data s)).
Proof.
  unfold Full.filter.
  destruct (full_for_each_appends (fun x => if pred x then [x] else [])
              (fun elem => if pred elem then Full.push_back elem else ret tt))
    with (l := StdVector.items (Full.m_data s)) (r := Full.Store_default T)
    as (r & Hr & Hi).
  { intros x r. destruct (pred x).
    - apply full_push_back_items.
    - exists r. rewrite app_nil_r. split; reflexivity. }
  exists r. unfold building. rewrite Hr. split; [reflexivity |].
  rewrite Hi. simpl. apply flat_map_filter.
Qed.

(** The example of the specification: the even elements of 1..5. *)
Lemma filter_selects_in_order_witness :
  exists r, @Full.filter libstdcxx Z Z.even (@Full.Store_list libstdcxx Z [1; 2; 3; 4; 5]%Z)
            = Normal r (@Full.Store_list libstdcxx Z [1; 2; 3; 4; 5]%Z) /\
            StdVector.items (Full.m_data r) = [2; 4]%Z /\
            Full.size r = 2.
Proof.
  destruct (@filter_selects_in_order libstdcxx Z Z.even
              (@Full.Store_list libstdcxx Z [1; 2; 3; 4; 5]%Z)) as (r & Hr & Hi).
  exists r. split; [exact Hr |].
  simpl in Hi. split; [exact Hi |].
  unfold Full.size, StdVector.size. rewrite Hi. reflexivity.
Defined.

(** ** Typed conversion *)

Section Conversions.
Context {alloc : Allocator}.
Variable U : Type.
Variable src : convertible U.

Local Abbreviation items_of r := (StdVector.items (Full.m_data r)).

(** What each conversion stores for one source element. *)
Lemma to_int_element_pushes :
  exists f, forall val r, Full.to_int_element src val r = Full.push_back (f val) r.
Proof.
  destruct src.
  - exists (fun val => match Text.stoi val with inr n => n | inl _ => 0%Z end).
    intros val r. simpl. destruct (Text.stoi val); reflexivity.
  - exists cast_int. reflexivity.
Qed.

Lemma to_double_element_pushes {fp : Floating} {parser : TextToDouble} :
  exists f, forall val r,
      Full.to_double_element src val r = Full.push_back (f val) r.
Proof.
  destruct src.
  - exists (fun val => match stod val with Some d => d | None => double_zero end).
    intros val r. simpl. destruct (stod val); reflexivity.
  - exists (cast_double fp). reflexivity.
Qed.

Lemma to_char_element_pushes :
  exists f, forall val r, Full.to_char_element src val r = Full.push_back (f val) r.
Proof.
  destruct src.
  - exists (fun val => match val with String c _ => c | EmptyString => zero end).
    intros val r. simpl. destruct val; reflexivity.
  - exists cast_char. reflexivity.
Qed.

Lemma to_string_element_pushes :
  exists f, forall val r,
      Full.to_string_element src val r = Full.push_back (f val) r.
Proof.
  destruct src.
  - exists (fun val => val). reflexivity.
  - exists arith_to_string. reflexivity.
Qed.

(** A conversion whose loop pushes one value per element throws
    RuntimeError on an empty source, returns otherwise, and never
    touches the source. *)
Lemma conversion_guarded V (body : U -> method (Full.Store V) unit)
      (s : Full.Store U) :
  (exists f, forall val r, body val r = Full.push_back (f val) r) ->
  let convert := fun self : Full.Store U =>
    if Full.empty self then throw RuntimeError self
    else building (Full.Store_default V)
           (for_each (StdVector.items (Full.m_data self)) body) self in
  guarded_by convert RuntimeError (Full.empty s = true) s /\
  leaves_unchanged (convert s) s.
Proof.
  intros [f Hf] convert.
  destruct (full_collect f body Hf (StdVector.items (Full.m_data s)) s)
    as (r & Hr & _).
  split.
  - apply guarded_by_intro.
    + intro He. unfold convert. rewrite He. reflexivity.
    + intro He. apply not_true_is_false in He.
      unfold convert. rewrite He. exists r, s. exact Hr.
    + apply bool_true_or_not.
  - unfold leaves_unchanged, convert.
    destruct (Full.empty s); [reflexivity |].
    rewrite Hr. reflexivity.
Qed.

End Conversions.

(** C3. Each of [to_int], [to_double], [to_char] and [to_string] throws
    RuntimeError exactly when the source store is empty, throws nothing
    else, returns normally on every non-empty store, and leaves the source
    store unchanged in all cases. *)
Theorem conversions_guard_empty_source {alloc : Allocator} {fp : Floating}
        {parser : TextToDouble} (U : Type) (src : convertible U) (s : Full.Store U) :
  (guarded_by (Full.to_int src) RuntimeError (Full.empty s = true) s /\
   leaves_unchanged (Full.to_int src s) s) /\
  (guarded_by (Full.to_double src) RuntimeError (Full.empty s = true) s /\
   leaves_unchanged (Full.to_double src s) s) /\
  (guarded_by (Full.to_char src) RuntimeError (Full.empty s = true) s /\
   leaves_unchanged (Full.to_char src s) s) /\
  (guarded_by (Full.to_string src) RuntimeError (Full.empty s = true) s /\
   leaves_unchanged (Full.to_string src s) s).
Proof.
  refine (conj _ (conj _ (conj _ _))).
  - apply (conversion_guarded (Full.to_int_element src) s).
    apply to_int_element_pushes.
  - apply (conversion_guarded (Full.to_double_element src) s).
    apply to_double_element_pushes.
  - apply (conversion_guarded (Full.to_char_element src) s).
    apply to_char_element_pushes.
  - apply (conversion_guarded (Full.to_string_element src) s).
    apply to_string_element_pushes.
Qed.

(** What [std::stoi] accepts: leading white space, a sign, and the
    longest run of digits; the rest of the text is ignored.  It throws
    when there is no digit to read or when the value does not fit an
    [int]. *)
Example stoi_reads_digits : Text.stoi "12" = inr 12%Z.
Proof. reflexivity. Qed.

Example stoi_reads_a_prefix : Text.stoi " -12abc" = inr (-12)%Z.
Proof. reflexivity. Qed.

Example stoi_rejects_letters : Text.stoi "abc" = inl Text.stoi_invalid_argument.
Proof. reflexivity. Qed.

Example stoi_rejects_a_lone_sign : Text.stoi "+" = inl Text.stoi_invalid_argument.
Proof. reflexivity. Qed.

Example stoi_rejects_large_values :
  Text.stoi "2147483648" = inl Text.stoi_out_of_range /\
  Text.stoi "2147483647" = inr 2147483647%Z /\
  Text.stoi "-2147483648" = inr (-2147483648)%Z.
Proof. repeat split. Qed.

Example to_string_writes_decimal :
  Text.to_string 0 = "0"%string /\
  Text.to_string 65 = "65"%string /\
  Text.to_string (-2147483648) = "-2147483648"%string.
Proof. repeat split. Qed.

(** [to_int] on a non-empty store of strings: the elements of the
    result. *)
Lemma to_int_on_strings {alloc : Allocator}
      (s : Full.Store string) :
  Full.empty s = false ->
  exists r,
    Full.to_int from_string s = Normal r s /\
    StdVector.items (Full.m_data r)
    = map (fun text => match Text.stoi text with
                       | inr n => n
                       | inl _ => 0%Z
                       end)
          (StdVector.items (Full.m_data s)).
Proof.
  intro Hne. unfold Full.to_int. rewrite Hne.
  apply (full_collect
           (fun text => match Text.stoi text with inr n => n | inl _ => 0%Z end)
           (Full.to_int_element from_string)).
  intros val r. simpl. destruct (Text.stoi val); reflexivity.
Qed.

(** C2. On a non-empty store of strings [to_int] throws nothing and
    returns a new store of the same length: an element that [std::stoi]
    parses becomes the parsed integer, an element on which it throws
    becomes 0. *)
Theorem to_int_recovers_parse_failures {alloc : Allocator}
        (s : Full.Store string) :
  Full.empty s = false ->
  exists r,
    Full.to_int from_string s = Normal r s /\
    StdVector.items (Full.m_data r)
    = map (fun text => match Text.stoi text with
                       | inr n => n
                       | inl _ => 0%Z
                       end)
          (StdVector.items (Full.m_data s)) /\
    Full.size r = Full.size s.
Proof.
  intro Hne.
  destruct (to_int_on_strings s Hne) as (r & Hr & Hi).
  exists r. split; [exact Hr |]. split; [exact Hi |].
  unfold Full.size, StdVector.size. rewrite Hi. apply length_map.
Qed.

(** The example of the specification. *)
Lemma to_int_recovers_parse_failures_witness :
  Full.empty (@Full.Store_list libstdcxx string ["12"; "abc"; "7"]%string) = false /\
  exists r,
    @Full.to_int libstdcxx string from_string
      (@Full.Store_list libstdcxx string ["12"; "abc"; "7"]%string)
    = Normal r (@Full.Store_list libstdcxx string ["12"; "abc"; "7"]%string) /\
    StdVector.items (Full.m_data r) = [12; 0; 7]%Z.
Proof.
  split; [reflexivity |].
  destruct (@to_int_recovers_parse_failures libstdcxx
              (@Full.Store_list libstdcxx string ["12"; "abc"; "7"]%string))
    as (r & Hr & Hi & _); [reflexivity |].
  exists r. split; [exact Hr |]. rewrite Hi. reflexivity.
Defined.

(** ** average of the minimal variant *)

(** C10. [average()] of the minimal variant is total: on an empty store
    it returns 0.0, and on a non-empty store it returns [sum()] converted
    to [double] and divided by [size()], which is then not zero. *)
Theorem mini_average_total {fp : Floating} (T : Type)
        {D : Default T} {P : PlusOp T} {C : ToDouble T} (s : Mini.Store T) :
  (Mini.empty s = true -> Mini.average s = double_zero) /\
  (Mini.empty s = false ->
   Mini.average s
   = double_div (static_cast_double (Mini.sum s)) (double_of_size (Mini.size s)) /\
   Mini.size s <> 0).
Proof.
  unfold Mini.average. split; intro He; rewrite He.
  - reflexivity.
  - split; [reflexivity |].
    apply vector_empty_false_size in He. unfold Mini.size. lia.
Qed.

(** On the traced platform the empty store yields the literal zero, with
    no division in it, and [10, 20, 30] yields 60 / 3. *)
Lemma mini_average_total_witness :
  @Mini.average Z traced _ _ _ (@Mini.Store_default libstdcxx Z) = traced_zero /\
  @Mini.average Z traced _ _ _ (@Mini.Store_list libstdcxx Z [10; 20; 30]%Z)
  = traced_div (traced_of_int 60) (traced_of_size 3).
Proof.
  split.
  - apply (@mini_average_total traced Z _ _ _ (@Mini.Store_default libstdcxx Z)).
    reflexivity.
  - destruct (@mini_average_total traced Z _ _ _
                (@Mini.Store_list libstdcxx Z [10; 20; 30]%Z)) as [_ Hne].
    destruct Hne as [Heq _]; [reflexivity |].
    rewrite Heq. reflexivity.
Defined.

(** ** Decimal text of an int *)

Section DecimalText.
Open Scope Z_scope.

Lemma small_digit_cases d :
  0 <= d < 10 ->
  d = 0 \/ d = 1 \/ d = 2 \/ d = 3 \/ d = 4 \/
  d = 5 \/ d = 6 \/ d = 7 \/ d = 8 \/ d = 9.
Proof. lia. Qed.

Ltac each_digit d H :=
  destruct (small_digit_cases H)
    as [-> | [-> | [-> | [-> | [-> | [-> | [-> | [-> | [-> | ->]]]]]]]]].

Lemma digit_value_digit_char d :
  0 <= d < 10 -> Text.digit_value (Text.digit_char d) = Some d.
Proof. intro H. each_digit d H; reflexivity. Qed.

(** [strtol] on a text that begins with a digit: no space to skip and
    no sign. *)
Lemma strtol_starts_with_digit d r :
  0 <= d < 10 ->
  Text.strtol (String (Text.digit_char d) r)
  = match Text.scan_digits (String (Text.digit_char d) r) 0 false with
    | None => None
    | Some v =>
        if v <? Text.LONG_MIN then Some (Text.LONG_MIN, true)
        else if Text.LONG_MAX <? v then Some (Text.LONG_MAX, true)
        else Some (v, false)
    end.
Proof. intro H. each_digit d H; reflexivity. Qed.

(** [strtol] on a text that begins with a minus sign. *)
Lemma strtol_starts_with_minus r :
  Text.strtol (String "-"%char r)
  = match Text.scan_digits r 0 false with
    | None => None
    | Some m =>
        if - m <? Text.LONG_MIN then Some (Text.LONG_MIN, true)
        else if Text.LONG_MAX <? - m then Some (Text.LONG_MAX, true)
        else Some (- m, false)
    end.
Proof. reflexivity. Qed.

Lemma string_app_assoc (a b c : string) :
  ((a ++ b) ++ c = a ++ (b ++ c))%string.
Proof. induction a as [| x a IH]; simpl; [reflexivity | now rewrite IH]. Qed.

Lemma string_app_nil_r (a : string) : (a ++ EmptyString = a)%string.
Proof. induction a as [| x a IH]; simpl; [reflexivity | now rewrite IH]. Qed.

(** The two clauses of [decimal]: one digit, or more. *)
Ltac small_case :=
  match goal with
  | E : (?n <? 10) = true |- _ => pose proof (proj1 (Z.ltb_lt _ _) E)
  end.
Ltac big_case :=
  match goal with
  | E : (?n <? 10) = false |- _ => pose proof (proj1 (Z.ltb_ge _ _) E)
  end.

(** Reading back the digits of [n] from a zero accumulator leaves [n]
    in the accumulator. *)
Lemma scan_digits_decimal n :
  0 <= n ->
  forall rest any,
    Text.scan_digits (Text.decimal n ++ rest) 0 any
    = Text.scan_digits rest n true.
Proof.
  funelim (Text.decimal n); intros Hn rest any.
  - small_case. simpl.
    rewrite digit_value_digit_char by lia. reflexivity.
  - big_case.
    rewrite string_app_assoc.
    match goal with
    | IH : _ -> forall rest any, Text.scan_digits _ _ _ = _ |- _ =>
        rewrite IH by (apply Z.div_pos; lia)
    end.
    simpl.
    rewrite digit_value_digit_char by (apply Z.mod_pos_bound; lia).
    f_equal. rewrite (Z.div_mod n 10) at 3 by lia. lia.
Qed.

Lemma decimal_head n :
  0 <= n ->
  exists d r, 0 <= d < 10 /\ Text.decimal n = String (Text.digit_char d) r.
Proof.
  funelim (Text.decimal n); intro Hn.
  - small_case. exists n, EmptyString. split; [lia | reflexivity].
  - big_case.
    match goal with
    | IH : _ -> exists d r, _ |- _ =>
        destruct IH as (d & r & Hd & Hr); [apply Z.div_pos; lia |]
    end.
    rewrite Hr. simpl. eauto.
Qed.

Lemma scan_decimal n :
  0 <= n -> Text.scan_digits (Text.decimal n) 0 false = Some n.
Proof.
  intro Hn. rewrite <- (string_app_nil_r (Text.decimal n)).
  rewrite scan_digits_decimal by exact Hn. reflexivity.
Qed.

(** [std::stoi] reads back what [std::to_string] wrote. *)
Lemma stoi_to_string n : is_int n -> Text.stoi (Text.to_string n) = inr n.
Proof.
  unfold is_int, INT_MIN, INT_MAX. intro Hn.
  unfold Text.stoi, Text.to_string.
  destruct (n <? 0) eqn:Hneg.
  - apply Z.ltb_lt in Hneg.
    rewrite strtol_starts_with_minus, scan_decimal by lia.
    rewrite Z.opp_involutive.
    unfold Text.LONG_MIN, Text.LONG_MAX, INT_MIN, INT_MAX.
    destruct (n <? - 2 ^ 63) eqn:E1; [apply Z.ltb_lt in E1; lia |].
    destruct (2 ^ 63 - 1 <? n) eqn:E2; [apply Z.ltb_lt in E2; lia |].
    destruct (n <? - 2 ^ 31) eqn:E3; [apply Z.ltb_lt in E3; lia |].
    destruct (2 ^ 31 - 1 <? n) eqn:E4; [apply Z.ltb_lt in E4; lia |].
    reflexivity.
  - apply Z.ltb_ge in Hneg.
    destruct (decimal_head Hneg) as (d & r & Hd & Hr).
    rewrite Hr, strtol_starts_with_digit by exact Hd.
    rewrite <- Hr, scan_decimal by exact Hneg.
    unfold Text.LONG_MIN, Text.LONG_MAX, INT_MIN, INT_MAX.
    destruct (n <? - 2 ^ 63) eqn:E1; [apply Z.ltb_lt in E1; lia |].
    destruct (2 ^ 63 - 1 <? n) eqn:E2; [apply Z.ltb_lt in E2; lia |].
    destruct (n <? - 2 ^ 31) eqn:E3; [apply Z.ltb_lt in E3; lia |].
    destruct (2 ^ 31 - 1 <? n) eqn:E4; [apply Z.ltb_lt in E4; lia |].
    reflexivity.
Qed.

End DecimalText.

Lemma parse_rendered_ints (l : list Z) :
  Forall is_int l ->
  map (fun n => match Text.stoi (Text.to_string n) with
                | inr m => m
                | inl _ => 0%Z
                end) l = l.
Proof.
  induction 1 as [| n l Hn Hl IH]; simpl; [reflexivity |].
  rewrite (stoi_to_string Hn), IH. reflexivity.
Qed.

(** C7. For a non-empty store of ints, [to_string()] followed by
    [to_int()] on the resulting store of strings returns, without any
    error, a store with the same elements in the same order. *)
Theorem int_text_round_trip {alloc : Allocator} (s : Full.Store Z) :
  Full.empty s = false ->
  Forall is_int (StdVector.items (Full.m_data s)) ->
  exists texts ints,
    Full.to_string (from_arithmetic int_arithmetic) s = Normal texts s /\
    Full.to_int from_string texts = Normal ints texts /\
    StdVector.items (Full.m_data ints) = StdVector.items (Full.m_data s).
Proof.
  intros Hne Hint.
  destruct (full_collect Text.to_string
              (Full.to_string_element (from_arithmetic int_arithmetic)))
    with (l := StdVector.items (Full.m_data s)) (self := s)
    as (texts & Htexts & Hti).
  { reflexivity. }
  assert (Hne' : Full.empty texts = false).
  { unfold Full.empty, StdVector.empty in *. rewrite Hti.
    destruct (StdVector.items (Full.m_data s)); [discriminate | reflexivity]. }
  destruct (to_int_on_strings texts Hne')
    as (ints & Hints & Hii).
  exists texts, ints. split; [| split].
  - unfold Full.to_string. rewrite Hne. exact Htexts.
  - exact Hints.
  - rewrite Hii, Hti, map_map. apply parse_rendered_ints. exact Hint.
Qed.

(** The example of the specification: [1, 2, 3] becomes ["1", "2", "3"]
    and then [1, 2, 3] again. *)
Lemma int_text_round_trip_witness :
  exists texts ints,
    @Full.to_string libstdcxx Z (from_arithmetic int_arithmetic)
      (@Full.Store_list libstdcxx Z [1; 2; 3]%Z)
    = Normal texts (@Full.Store_list libstdcxx Z [1; 2; 3]%Z) /\
    @Full.to_int libstdcxx string from_string texts = Normal ints texts /\
    StdVector.items (Full.m_data ints) = [1; 2; 3]%Z.
Proof.
  apply (@int_text_round_trip libstdcxx (@Full.Store_list libstdcxx Z [1; 2; 3]%Z)).
  - reflexivity.
  - repeat constructor; unfold is_int, INT_MIN, INT_MAX; lia.
Defined.

(** ** sort and unique *)

Section SortFacts.
Variable T : Type.
Context {E : EqOp T} {L : LtOp T} {G : GtOp T} {TO : TotalOrder T}.

(** [x] is not greater than [y]; [x] is smaller than [y]. *)
Let le (x y : T) : Prop := lt_op y x = false.
Let lt (x y : T) : Prop := lt_op x y = true.

Lemma lt_le x y : lt x y -> le x y.
Proof.
  unfold lt, le. intro Hxy.
  destruct (lt_op y x) eqn:Hyx; [| reflexivity].
  pose proof (lt_op_trans _ _ _ Hxy Hyx) as Hxx.
  rewrite lt_op_irrefl in Hxx. discriminate.
Qed.

Lemma le_cases x y : le x y -> lt x y \/ x = y.
Proof.
  unfold le, lt. intro Hyx.
  destruct (lt_op_total x y) as [H | [H | H]]; auto; congruence.
Qed.

Lemma le_refl x : le x x.
Proof. apply lt_op_irrefl. Qed.

Lemma lt_le_trans x y z : lt x y -> le y z -> lt x z.
Proof.
  intros Hxy Hyz. destruct (le_cases Hyz) as [H | <-]; [| exact Hxy].
  exact (lt_op_trans _ _ _ Hxy H).
Qed.

Lemma le_trans x y z : le x y -> le y z -> le x z.
Proof.
  intros Hxy Hyz. destruct (le_cases Hxy) as [H | <-]; [| exact Hyz].
  apply lt_le. exact (lt_le_trans H Hyz).
Qed.

Lemma le_antisym x y : le x y -> le y x -> x = y.
Proof.
  intros Hxy Hyx. destruct (le_cases Hxy) as [H | H]; [| exact H].
  unfold le, lt in *. congruence.
Qed.

(** [Algo.sort] returns a permutation... *)
Lemma sort_insert_perm (comp : T -> T -> bool) x l :
  Permutation (Algo.sort_insert comp x l) (x :: l).
Proof.
  induction l as [| y r IH]; simpl; [reflexivity |].
  destruct (comp x y); [reflexivity |].
  rewrite IH. apply perm_swap.
Qed.

Lemma sort_perm (comp : T -> T -> bool) l : Permutation (Algo.sort comp l) l.
Proof.
  induction l as [| x r IH]; simpl; [reflexivity |].
  rewrite sort_insert_perm, IH. reflexivity.
Qed.

(** ... that is ordered by [<]. *)
Lemma sort_insert_sorted x l :
  StronglySorted le l -> StronglySorted le (Algo.sort_insert lt_op x l).
Proof.
  induction 1 as [| y r Hr IH Hy]; simpl.
  - constructor; constructor.
  - destruct (lt_op x y) eqn:Hxy.
    + constructor; [constructor; assumption |].
      constructor; [apply lt_le; exact Hxy |].
      eapply Forall_impl; [| exact Hy].
      intros z Hz. apply le_trans with y; [apply lt_le; exact Hxy | exact Hz].
    + constructor; [exact IH |].
      apply Forall_forall. intros z Hz.
      apply (Permutation_in _ (sort_insert_perm lt_op x r)) in Hz.
      destruct Hz as [<- | Hz]; [exact Hxy |].
      rewrite Forall_forall in Hy. auto.
Qed.

Lemma sort_sorted l : StronglySorted le (Algo.sort lt_op l).
Proof.
  induction l as [| x r IH]; simpl; [constructor |].
  apply sort_insert_sorted. exact IH.
Qed.

(** There is only one such permutation, so [Algo.sort] agrees with any
    implementation of [std::sort]. *)
Lemma sorted_perm_unique l1 :
  forall l2, StronglySorted le l1 -> StronglySorted le l2 ->
             Permutation l1 l2 -> l1 = l2.
Proof.
  induction l1 as [| x1 r1 IH]; intros l2 H1 H2 Hp.
  - apply Permutation_nil in Hp. auto.
  - destruct l2 as [| x2 r2].
    + apply Permutation_sym, Permutation_nil in Hp. discriminate.
    + inversion H1 as [| ? ? Hr1 Hx1]; subst.
      inversion H2 as [| ? ? Hr2 Hx2]; subst.
      rewrite Forall_forall in Hx1, Hx2.
      assert (x1 = x2).
      { apply le_antisym.
        - assert (Hin : In x2 (x1 :: r1))
            by (apply (Permutation_in _ (Permutation_sym Hp)); left; reflexivity).
          destruct Hin as [-> | Hin]; [apply le_refl | auto].
        - assert (Hin : In x1 (x2 :: r2))
            by (apply (Permutation_in _ Hp); left; reflexivity).
          destruct Hin as [-> | Hin]; [apply le_refl | auto]. }
      subst x2. f_equal.
      apply IH; [assumption | assumption |].
      apply Permutation_cons_inv with x1. exact Hp.
Qed.

Lemma sort_unique l l' :
  Permutation l l' -> StronglySorted le l' -> l' = Algo.sort lt_op l.
Proof.
  intros Hp Hs. apply sorted_perm_unique; [exact Hs | apply sort_sorted |].
  rewrite <- Hp. symmetry. apply sort_perm.
Qed.

(** [std::unique] on an ordered range keeps one copy of every element,
    in strictly increasing order. *)
Lemma unique_scan_sorted r :
  forall x, StronglySorted le (x :: r) ->
            StronglySorted lt (Algo.unique_scan x r) /\
            (forall z, In z (Algo.unique_scan x r) <-> In z (x :: r)).
Proof.
  induction r as [| y r IH]; intros x Hs; simpl.
  - split; [repeat constructor | tauto].
  - inversion Hs as [| ? ? Hyr Hx]; subst.
    inversion Hx as [| ? ? Hxy Hxr]; subst.
    destruct (eq_op x y) eqn:Heq.
    + apply eq_op_spec in Heq. subst y.
      destruct (IH x) as [Hsorted Hin].
      { inversion Hyr; subst. constructor; assumption. }
      split; [exact Hsorted |].
      intro z. rewrite Hin. simpl. tauto.
    + assert (Hlt : lt x y).
      { destruct (le_cases Hxy) as [H | H]; [exact H |].
        apply eq_op_spec in H. congruence. }
      destruct (IH y Hyr) as [Hsorted Hin].
      split.
      * constructor; [exact Hsorted |].
        apply Forall_forall. intros z Hz. apply Hin in Hz.
        destruct Hz as [<- | Hz]; [exact Hlt |].
        apply lt_le_trans with y; [exact Hlt |].
        inversion Hyr as [| ? ? _ Hy]; subst.
        rewrite Forall_forall in Hy. auto.
      * intro z. simpl. rewrite Hin. simpl. tauto.
Qed.

Lemma unique_kept_sorted l :
  StronglySorted le l ->
  StronglySorted lt (Algo.unique_kept l) /\
  (forall z, In z (Algo.unique_kept l) <-> In z l).
Proof.
  destruct l as [| x r]; simpl.
  - intros _. split; [constructor | tauto].
  - apply unique_scan_sorted.
Qed.

Lemma increasing_NoDup l : StronglySorted lt l -> NoDup l.
Proof.
  induction 1 as [| x r Hr IH Hx]; constructor; [| exact IH].
  intro Hin. rewrite Forall_forall in Hx. specialize (Hx x Hin).
  unfold lt in Hx. rewrite lt_op_irrefl in Hx. discriminate.
Qed.

(** Sorting and then removing neighbours that are equal removes every
    duplicate. *)
Lemma sort_then_unique l :
  let result := Algo.unique_kept (Algo.sort lt_op l) in
  StronglySorted (fun x y => lt_op x y = true) result /\
  NoDup result /\
  (forall z, In z result <-> In z l).
Proof.
  intro result.
  destruct (unique_kept_sorted (sort_sorted l)) as [Hs Hin].
  split; [exact Hs |]. split; [apply increasing_NoDup; exact Hs |].
  intro z. unfold result. rewrite Hin.
  split; apply Permutation_in;
    [apply sort_perm | apply Permutation_sym, sort_perm].
Qed.

End SortFacts.

Section UniqueFacts.
Variable T : Type.
Context {E : EqOp T}.

Lemma unique_kept_shorter (l : list T) :
  length (Algo.unique_kept l) <= length l.
Proof.
  destruct l as [| x r]; simpl; [lia |].
  revert x. induction r as [| y r IH]; intro x; simpl; [lia |].
  destruct (eq_op x y); [specialize (IH x) | specialize (IH y)]; simpl; lia.
Qed.

(** Where no two neighbours are equal, [std::unique] removes nothing. *)
Lemma unique_kept_no_equal_neighbours (l : list T) :
  Sorted (fun x y => eq_op x y = false) l -> Algo.unique_kept l = l.
Proof.
  destruct l as [| x r]; simpl; [reflexivity |].
  revert x. induction r as [| y r IH]; intros x Hs; simpl; [reflexivity |].
  inversion Hs as [| ? ? Hr Hhd]; subst.
  inversion Hhd as [| ? ? Hxy]; subst.
  rewrite Hxy, IH by exact Hr. reflexivity.
Qed.

(** [std::unique] followed by [erase(it, end())] leaves exactly the kept
    elements, in a vector of the same capacity. *)
Lemma erase_after_unique (l : list T) (c : nat) :
  StdVector.erase_to_end (length (Algo.unique_kept l))
    (StdVector.mkVector
       (Algo.unique_kept l ++ skipn (length (Algo.unique_kept l)) l) c)
  = Some (StdVector.mkVector (Algo.unique_kept l) c).
Proof.
  unfold StdVector.erase_to_end, StdVector.size, StdVector.capacity. simpl.
  rewrite length_app.
  destruct (Nat.leb_spec (length (Algo.unique_kept l))
              (length (Algo.unique_kept l) +
               length (skipn (length (Algo.unique_kept l)) l))) as [_ | Hlt];
    [| lia].
  rewrite firstn_app, Nat.sub_diag, firstn_all. simpl.
  rewrite app_nil_r. reflexivity.
Qed.

End UniqueFacts.

(** [unique(auto_sort)]: what is left in the store. *)
Lemma full_unique_sorted_or_not (T : Type) {E : EqOp T} {L : LtOp T} {G : GtOp T}
      (auto_sort : bool) (s : Full.Store T) :
  Full.unique auto_sort s
  = Normal tt (Full.mkStore
                 (StdVector.mkVector
                    (Algo.unique_kept
                       (if auto_sort
                        then Algo.sort lt_op (StdVector.items (Full.m_data s))
                        else StdVector.items (Full.m_data s)))
                    (Full.capacity s))).
Proof.
  unfold Full.unique, Full.sort, Full.sort_by, Full.set_data, Full.on_data,
    update, bind, ret, Algo.unique, StdVector.rewrite_items, Full.capacity.
  destruct auto_sort; cbn [Full.m_data StdVector.items StdVector.capacity
                             StdVector.reserved option_map];
    rewrite erase_after_unique; reflexivity.
Qed.

Lemma full_unique_auto_sort (T : Type) {E : EqOp T} {L : LtOp T} {G : GtOp T}
      (s : Full.Store T) :
  Full.unique true s
  = Normal tt (Full.mkStore
                 (StdVector.mkVector
                    (Algo.unique_kept (Algo.sort lt_op (StdVector.items (Full.m_data s))))
                    (Full.capacity s))).
Proof. apply (full_unique_sorted_or_not true). Qed.

Lemma mini_unique_no_sort (T : Type) {E : EqOp T} (s : Mini.Store T) :
  Mini.unique s
  = Normal tt (Mini.mkStore
                 (StdVector.mkVector
                    (Algo.unique_kept (StdVector.items (Mini.m_data s)))
                    (Mini.capacity s))).
Proof.
  unfold Mini.unique, Mini.set_data, Mini.on_data, update, bind, Algo.unique,
    StdVector.rewrite_items, Mini.capacity.
  cbn [Mini.m_data StdVector.items StdVector.capacity StdVector.reserved
         option_map].
  rewrite erase_after_unique. reflexivity.
Qed.

(** C1. For an element type with a total order, the full variant's
    [unique()] with [auto_sort = true] sorts ascending and then removes
    neighbours that are equal: the result is strictly increasing, has no
    duplicate, and has exactly the elements of the store.  The minimal
    variant's [unique()] does not sort: it removes neighbours that are
    equal only, and leaves a store without equal neighbours unchanged. *)
Theorem unique_variants_diverge (T : Type)
        {E : EqOp T} {L : LtOp T} {G : GtOp T} (TO : TotalOrder T) :
  (forall s : Full.Store T,
      exists s',
        Full.unique true s = Normal tt s' /\
        StdVector.items (Full.m_data s')
        = Algo.unique_kept (Algo.sort lt_op (StdVector.items (Full.m_data s))) /\
        StronglySorted (fun x y => lt_op x y = true)
                       (StdVector.items (Full.m_data s')) /\
        NoDup (StdVector.items (Full.m_data s')) /\
        (forall x, In x (StdVector.items (Full.m_data s'))
                   <-> In x (StdVector.items (Full.m_data s)))) /\
  (forall s : Mini.Store T,
      exists s',
        Mini.unique s = Normal tt s' /\
        StdVector.items (Mini.m_data s')
        = Algo.unique_kept (StdVector.items (Mini.m_data s)) /\
        (Sorted (fun x y => eq_op x y = false) (StdVector.items (Mini.m_data s)) ->
         s' = s)).
Proof.
  split.
  - intro s. eexists. split; [apply full_unique_auto_sort |].
    split; [reflexivity |]. simpl.
    apply (@sort_then_unique T E L G TO).
  - intro s. eexists. split; [apply mini_unique_no_sort |].
    split; [reflexivity |].
    intro Hs. rewrite (unique_kept_no_equal_neighbours Hs).
    destruct s as [[l c]]. reflexivity.
Qed.

(** The example of the specification: on [5, 2, 8, 1, 9, 2, 5] the full
    variant yields [1, 2, 5, 8, 9] and the minimal variant changes
    nothing. *)
Lemma unique_variants_diverge_witness :
  (exists s',
      Full.unique true (@Full.Store_list libstdcxx Z [5; 2; 8; 1; 9; 2; 5]%Z)
      = Normal tt s' /\
      StdVector.items (Full.m_data s') = [1; 2; 5; 8; 9]%Z) /\
  Mini.unique (@Mini.Store_list libstdcxx Z [5; 2; 8; 1; 9; 2; 5]%Z)
  = Normal tt (@Mini.Store_list libstdcxx Z [5; 2; 8; 1; 9; 2; 5]%Z).
Proof.
  destruct (unique_variants_diverge int_total_order) as [Hfull Hmini].
  split.
  - destruct (Hfull (@Full.Store_list libstdcxx Z [5; 2; 8; 1; 9; 2; 5]%Z))
      as (s' & Hcall & Hitems & _).
    exists s'. split; [exact Hcall |]. rewrite Hitems. reflexivity.
  - destruct (Hmini (@Mini.Store_list libstdcxx Z [5; 2; 8; 1; 9; 2; 5]%Z))
      as (s' & Hcall & _ & Hsame).
    rewrite Hcall. f_equal. apply Hsame.
    simpl. repeat constructor.
Defined.

(** ** The size-capacity invariant *)

Section VectorInvariant.
Context {alloc : Allocator}.
Variable T : Type.
Implicit Types (v : StdVector.vector T) (l : list T).

Local Abbreviation fits := (@StdVector.fits T).

Lemma length_removelast_le l : length (removelast l) <= length l.
Proof.
  induction l as [| x [| y l] IH]; simpl in *; lia.
Qed.

Lemma room_for_ge n v : n <= StdVector.room_for n v.
Proof.
  unfold StdVector.room_for.
  destruct (Nat.leb_spec n (StdVector.capacity v)); [assumption |].
  apply grown_capacity_ge.
Qed.

Lemma fits_create : fits (StdVector.create T).
Proof. apply (fresh_capacity_ge 0). Qed.

Lemma fits_create_sized dflt n : fits (StdVector.create_sized dflt n).
Proof.
  unfold StdVector.fits, StdVector.size, StdVector.create_sized. simpl.
  rewrite repeat_length. apply fresh_capacity_ge.
Qed.

Lemma fits_create_from l : fits (StdVector.create_from l).
Proof. apply fresh_capacity_ge. Qed.

Lemma fits_push_back x v : fits (StdVector.push_back x v).
Proof.
  unfold StdVector.fits, StdVector.push_back, StdVector.size at 1. simpl.
  rewrite length_app, Nat.add_1_r. apply room_for_ge.
Qed.

Lemma fits_pop_back v v' :
  fits v -> StdVector.pop_back v = Some v' -> fits v'.
Proof.
  unfold StdVector.fits, StdVector.pop_back, StdVector.size, StdVector.capacity.
  intros Hv Hpop.
  destruct (StdVector.items v) as [| x l] eqn:El; [discriminate |].
  injection Hpop as <-. cbn [StdVector.items StdVector.reserved].
  pose proof (length_removelast_le (x :: l)) as Hr.
  change (length (removelast (x :: l)) <= StdVector.reserved v). lia.
Qed.

Lemma fits_insert pos x v v' : StdVector.insert pos x v = Some v' -> fits v'.
Proof.
  unfold StdVector.insert. destruct (Nat.leb_spec pos (StdVector.size v)) as [Hle |];
    [| discriminate].
  intros [= <-]. unfold StdVector.fits, StdVector.size at 1. simpl.
  rewrite length_app. simpl. rewrite length_firstn, length_skipn.
  pose proof (room_for_ge (S (StdVector.size v)) v).
  unfold StdVector.size in *. lia.
Qed.

Lemma fits_insert_range pos l v v' :
  StdVector.insert_range pos l v = Some v' -> fits v'.
Proof.
  unfold StdVector.insert_range.
  destruct (Nat.leb_spec pos (StdVector.size v)) as [Hle |]; [| discriminate].
  intros [= <-]. unfold StdVector.fits, StdVector.size at 1. simpl.
  rewrite !length_app, length_firstn, length_skipn.
  pose proof (room_for_ge (StdVector.size v + length l) v).
  unfold StdVector.size in *. lia.
Qed.

Lemma fits_erase pos v v' : fits v -> StdVector.erase pos v = Some v' -> fits v'.
Proof.
  unfold StdVector.erase. intro Hv.
  destruct (Nat.ltb_spec pos (StdVector.size v)) as [Hlt |]; [| discriminate].
  intros [= <-]. unfold StdVector.fits, StdVector.size, StdVector.capacity in *.
  cbn [StdVector.items StdVector.reserved].
  destruct (StdVector.items v) as [| y l]; [simpl in Hlt; lia |].
  rewrite length_app, length_firstn, length_skipn. simpl in *. lia.
Qed.

Lemma fits_erase_to_end from v v' :
  fits v -> StdVector.erase_to_end from v = Some v' -> fits v'.
Proof.
  unfold StdVector.erase_to_end. intro Hv.
  destruct (Nat.leb_spec from (StdVector.size v)) as [Hle |]; [| discriminate].
  intros [= <-]. unfold StdVector.fits, StdVector.size, StdVector.capacity in *.
  cbn [StdVector.items StdVector.reserved].
  rewrite length_firstn. lia.
Qed.

Lemma fits_assign pos x v v' :
  fits v -> StdVector.assign pos x v = Some v' -> fits v'.
Proof.
  unfold StdVector.assign. intro Hv.
  destruct (Nat.ltb_spec pos (StdVector.size v)) as [Hlt |]; [| discriminate].
  intros [= <-]. unfold StdVector.fits, StdVector.size, StdVector.capacity in *.
  cbn [StdVector.items StdVector.reserved].
  destruct (StdVector.items v) as [| y l]; [simpl in Hlt; lia |].
  rewrite length_app. cbn [length]. rewrite length_firstn, length_skipn.
  simpl in *. lia.
Qed.

Lemma fits_clear v : fits (StdVector.clear v).
Proof. unfold StdVector.fits, StdVector.size. simpl. lia. Qed.

Lemma fits_resize dflt n v : fits v -> fits (StdVector.resize dflt n v).
Proof.
  unfold StdVector.resize. intro Hv.
  destruct (Nat.leb_spec n (StdVector.size v)) as [Hle | Hgt];
    unfold StdVector.fits, StdVector.size at 1; simpl.
  - rewrite length_firstn. unfold StdVector.fits, StdVector.size, StdVector.capacity in *.
    lia.
  - rewrite length_app, repeat_length.
    pose proof (room_for_ge n v). unfold StdVector.size in *. lia.
Qed.

Lemma fits_reserve n v : fits v -> fits (StdVector.reserve n v).
Proof.
  unfold StdVector.reserve. intro Hv.
  destruct (Nat.leb_spec n (StdVector.capacity v)) as [Hle | Hgt]; [exact Hv |].
  unfold StdVector.fits, StdVector.size, StdVector.capacity in *.
  cbn [StdVector.items StdVector.reserved].
  pose proof (reserved_capacity_ge (StdVector.reserved v) n). lia.
Qed.

Lemma fits_shrink_to_fit v : fits v -> fits (StdVector.shrink_to_fit v).
Proof.
  unfold StdVector.shrink_to_fit, StdVector.fits. intro Hv.
  unfold StdVector.size at 1, StdVector.capacity at 1. simpl.
  apply shrunk_capacity_ge. exact Hv.
Qed.

Lemma fits_rewrite_items (f : list T -> list T) v :
  length (f (StdVector.items v)) <= length (StdVector.items v) ->
  fits v -> fits (StdVector.rewrite_items f v).
Proof.
  unfold StdVector.fits, StdVector.rewrite_items, StdVector.size, StdVector.capacity.
  simpl. lia.
Qed.

Lemma length_sort (comp : T -> T -> bool) l : length (Algo.sort comp l) = length l.
Proof. apply Permutation_length, sort_perm. Qed.

End VectorInvariant.

(** ** Which calls have undefined behaviour *)

(** Turn boolean comparisons and failed lookups into arithmetic facts. *)
Ltac bool_facts :=
  repeat match goal with
         | H : (_ <=? _) = true |- _ => apply Nat.leb_le in H
         | H : (_ <=? _) = false |- _ => apply Nat.leb_gt in H
         | H : (_ <? _) = true |- _ => apply Nat.ltb_lt in H
         | H : (_ <? _) = false |- _ => apply Nat.ltb_ge in H
         | H : nth_error _ _ = None |- _ => apply nth_error_None in H
         | H : nth_error ?l ?p = Some _ |- _ =>
             assert (p < length l) by (apply nth_error_Some; congruence); clear H
         | H : negb _ = true |- _ => apply negb_true_iff in H
         | H : negb _ = false |- _ => apply negb_false_iff in H
         end.

(** Split the goal on every guard, lookup and emptiness test in it. *)
Ltac split_cases :=
  repeat match goal with
         | |- context [match ?l with [] => _ | _ :: _ => _ end] =>
             is_var l; destruct l
         | |- context [hd_error ?l] => is_var l; destruct l
         | |- context [if ?b then _ else _] => destruct b eqn:?
         | |- context [match nth_error ?l ?p with Some _ => _ | None => _ end] =>
             destruct (nth_error l p) eqn:?
         end.

(** Unfold the member functions down to the vector calls. *)
Ltac unfold_members :=
  unfold Full.precondition, Full.exec, Full.discard, Full.at_, Full.subscript,
    Full.front, Full.mid, Full.back, Full.max, Full.min, Full.reserve,
    Full.resize, Full.clear, Full.shrink_to_fit, Full.pop_front, Full.pop_back,
    Full.remove_at, Full.insert, Full.replace_at, Full.replace_all, Full.fill,
    Full.reverse, Full.push_front_range, Full.push_front, Full.push_back_range,
    Full.push_back, Full.emplace_back, Full.emplace_front, Full.transform,
    Full.sort, Full.sort_by, Full.on_data, Full.set_data, Full.deref,
    Full.size, Full.empty, Full.capacity,
    Mini.precondition, Mini.exec, Mini.discard, Mini.at_, Mini.subscript,
    Mini.front, Mini.mid, Mini.back, Mini.max, Mini.min, Mini.reserve,
    Mini.resize, Mini.clear, Mini.shrink_to_fit, Mini.pop_front, Mini.pop_back,
    Mini.remove_at, Mini.insert, Mini.replace_all, Mini.fill, Mini.reverse,
    Mini.push_front, Mini.push_back, Mini.emplace_back, Mini.emplace_front,
    Mini.sort, Mini.sort_by, Mini.on_data, Mini.set_data, Mini.deref,
    Mini.size, Mini.empty, Mini.capacity,
    Algo.max_element, Algo.min_element,
    StdVector.index, StdVector.at_, StdVector.front, StdVector.back, StdVector.empty,
    StdVector.size, StdVector.capacity, StdVector.pop_back, StdVector.insert,
    StdVector.insert_range, StdVector.erase, StdVector.assign,
    update, bind, throw, ret, option_map;
  cbn [Full.m_data Mini.m_data StdVector.items StdVector.reserved].

Section StoreDefined.
Context {alloc : Allocator}.
Variable T : Type.

(** A call of the full variant returns or throws exactly when its
    precondition holds. *)
Lemma full_exec_defined (c : Full.call T) (s : Full.Store T) :
  Full.precondition c s = true <-> state_after (Full.exec c s) <> None.
Proof.
  destruct s as [[l cap]].
  destruct c; repeat progress unfold_members.
  all: try (split_cases; cbn [state_after]; split; intros;
            try discriminate; try reflexivity; try congruence; bool_facts;
            cbn [length] in *; try apply Nat.ltb_lt; try lia; fail).
  - (* mid *)
    destruct l as [| x l]; cbn [state_after]; [split; congruence |].
    destruct (nth_error (x :: l) (length (x :: l) / 2)) eqn:E;
      [split; intros; [discriminate | reflexivity] |].
    apply nth_error_None in E.
    pose proof (Nat.div_lt (length (x :: l)) 2). cbn [length] in *. lia.
  - (* unique *)
    rewrite full_unique_sorted_or_not. split; [discriminate | reflexivity].
Qed.

(** So does a call of the minimal variant. *)
Lemma mini_exec_defined (c : Mini.call T) (s : Mini.Store T) :
  Mini.precondition c s = true <-> state_after (Mini.exec c s) <> None.
Proof.
  destruct s as [[l cap]].
  destruct c; repeat progress unfold_members.
  all: try (split_cases; cbn [state_after negb hd_error]; split; intros;
            try discriminate; try reflexivity; try congruence; bool_facts;
            cbn [length] in *; try apply Nat.ltb_lt; try lia; fail).
  - (* mid *)
    destruct l as [| x l].
    { cbn. split; [discriminate | intro H; exfalso; apply H; reflexivity]. }
    cbn [negb].
    destruct (nth_error (x :: l) (length (x :: l) / 2)) eqn:E;
      [split; intros; [discriminate | reflexivity] |].
    apply nth_error_None in E.
    pose proof (Nat.div_lt (length (x :: l)) 2). cbn [length] in *. lia.
  - (* unique *)
    rewrite mini_unique_no_sort. split; [discriminate | reflexivity].
Qed.
End StoreDefined.

Create HintDb fits discriminated.

#[export] Hint Resolve fits_create fits_create_sized fits_create_from fits_push_back
  fits_pop_back fits_insert fits_insert_range fits_erase fits_erase_to_end
  fits_assign fits_clear fits_resize fits_reserve fits_shrink_to_fit : fits.

(** Take apart a hypothesis [state_after (...) = Some s'] about an
    unfolded member function: split on every guard and on every result of
    a vector call. *)
Ltac split_outcome H :=
  unfold option_map in H;
  repeat match type of H with
         | context [if ?b then _ else _] => destruct b eqn:?
         | context [match ?o with Some _ => _ | None => _ end] =>
             lazymatch o with
             | match _ with Some _ => _ | None => _ end => fail
             | _ => destruct o eqn:?
             end
         | context [match ?o with inl _ => _ | inr _ => _ end] => destruct o eqn:?
         end;
  cbn in H; try discriminate H;
  try (injection H as <-).

(** The proofs below reason about the vector calls through the lemmas
    above, not by unfolding them. *)
#[local] Arguments StdVector.push_back : simpl never.
#[local] Arguments StdVector.pop_back : simpl never.
#[local] Arguments StdVector.insert : simpl never.
#[local] Arguments StdVector.insert_range : simpl never.
#[local] Arguments StdVector.erase : simpl never.
#[local] Arguments StdVector.erase_to_end : simpl never.
#[local] Arguments StdVector.assign : simpl never.
#[local] Arguments StdVector.clear : simpl never.
#[local] Arguments StdVector.resize : simpl never.
#[local] Arguments StdVector.reserve : simpl never.
#[local] Arguments StdVector.shrink_to_fit : simpl never.
#[local] Arguments StdVector.rewrite_items : simpl never.
#[local] Arguments StdVector.fits : simpl never.

Section StoreInvariant.
Context {alloc : Allocator}.
Variable T : Type.

Lemma fits_rewrite_same_length (f : list T -> list T) (v : StdVector.vector T) :
  length (f (StdVector.items v)) = length (StdVector.items v) ->
  StdVector.fits v -> StdVector.fits (StdVector.rewrite_items f v).
Proof. intros Hlen. apply fits_rewrite_items. lia. Qed.

Lemma fits_unique_erase {E : EqOp T} (v : StdVector.vector T) :
  StdVector.fits v ->
  StdVector.fits (StdVector.mkVector (Algo.unique_kept (StdVector.items v))
                                     (StdVector.capacity v)).
Proof.
  unfold StdVector.fits, StdVector.size, StdVector.capacity. simpl.
  pose proof (unique_kept_shorter (StdVector.items v)). lia.
Qed.

Lemma fits_sort (comp : T -> T -> bool) (v : StdVector.vector T) :
  StdVector.fits v -> StdVector.fits (StdVector.rewrite_items (Algo.sort comp) v).
Proof. apply fits_rewrite_same_length, length_sort. Qed.

Lemma fits_map (f : T -> T) (v : StdVector.vector T) :
  StdVector.fits v -> StdVector.fits (StdVector.rewrite_items (map f) v).
Proof. apply fits_rewrite_same_length, length_map. Qed.

Lemma fits_reverse (v : StdVector.vector T) :
  StdVector.fits v -> StdVector.fits (StdVector.rewrite_items (@Algo.reverse T) v).
Proof. apply fits_rewrite_same_length, length_rev. Qed.

Hint Resolve fits_sort fits_map fits_reverse fits_unique_erase : fits.

(** Every call of the full variant keeps the invariant, whether it
    returns or throws. *)
Lemma full_exec_fits (c : Full.call T) (s s' : Full.Store T) :
  StdVector.fits (Full.m_data s) ->
  state_after (Full.exec c s) = Some s' ->
  StdVector.fits (Full.m_data s').
Proof.
  intros Hs H.
  destruct c; cbn in H;
    unfold Full.discard, Full.at_, Full.subscript, Full.front, Full.mid,
      Full.back, Full.max, Full.min, Full.reserve, Full.resize, Full.clear,
      Full.shrink_to_fit, Full.pop_front, Full.pop_back, Full.remove_at,
      Full.insert, Full.replace_at, Full.replace_all, Full.fill, Full.reverse,
      Full.push_front_range, Full.push_front, Full.push_back_range,
      Full.push_back, Full.emplace_back, Full.emplace_front, Full.transform,
      Full.sort, Full.sort_by, Full.on_data, Full.set_data, Full.deref,
      update, bind, throw, ret in H;
    cbn in H.
  all: try (split_outcome H; cbn; eauto 3 with fits; fail).
  (* unique *)
  rewrite (full_unique_sorted_or_not auto_sort s) in H.
  injection H as <-. destruct auto_sort.
  - exact (fits_unique_erase (fits_sort lt_op Hs)).
  - exact (fits_unique_erase Hs).
Qed.

End StoreInvariant.

Section MiniInvariant.
Context {alloc : Allocator}.
Variable T : Type.

(** Every call of the minimal variant that has a state after it keeps
    the invariant. *)
Lemma mini_exec_fits (c : Mini.call T) (s s' : Mini.Store T) :
  StdVector.fits (Mini.m_data s) ->
  state_after (Mini.exec c s) = Some s' ->
  StdVector.fits (Mini.m_data s').
Proof.
  intros Hs H.
  destruct c; cbn in H;
    unfold Mini.discard, Mini.at_, Mini.subscript, Mini.front, Mini.mid,
      Mini.back, Mini.max, Mini.min, Mini.reserve, Mini.resize, Mini.clear,
      Mini.shrink_to_fit, Mini.pop_front, Mini.pop_back, Mini.remove_at,
      Mini.insert, Mini.replace_all, Mini.fill, Mini.reverse,
      Mini.push_front, Mini.push_back, Mini.emplace_back, Mini.emplace_front,
      Mini.sort, Mini.sort_by, Mini.on_data, Mini.set_data, Mini.deref,
      update, bind, throw, ret in H;
    cbn in H.
  all: try (split_outcome H; cbn;
            eauto 3 using fits_sort, fits_map, fits_reverse with fits; fail).
  (* unique *)
  change (state_after (Mini.unique s) = Some s') in H.
  rewrite (mini_unique_no_sort s) in H.
  injection H as <-. exact (fits_unique_erase Hs).
Qed.

End MiniInvariant.

(** A loop keeps what each of its iterations keeps. *)
Lemma for_each_keeps {S X} (P : S -> Prop) (body : X -> method S unit) :
  (forall x r r', P r -> state_after (body x r) = Some r' -> P r') ->
  forall l r r', P r -> state_after (for_each l body r) = Some r' -> P r'.
Proof.
  intros Hbody l. induction l as [| x l IH]; intros r r' Hr H; simpl in H.
  - injection H as <-. exact Hr.
  - unfold bind in H. destruct (body x r) as [[] r1 | e r1 |] eqn:Hx.
    + apply (IH r1); [| exact H]. apply (Hbody x r); [exact Hr |].
      rewrite Hx. reflexivity.
    + simpl in H. injection H as <-. apply (Hbody x r); [exact Hr |].
      rewrite Hx. reflexivity.
    + discriminate.
Qed.

Section ResultInvariant.
Context {alloc : Allocator}.

(** A store filled by pushing into a default-constructed one. *)
Lemma built_store_fits {S X V} (body : X -> method (Full.Store V) unit)
      (l : list X) (self self' : S) (r : Full.Store V) :
  (forall x r r', StdVector.fits (Full.m_data r) ->
                  state_after (body x r) = Some r' ->
                  StdVector.fits (Full.m_data r')) ->
  building (Full.Store_default V) (for_each l body) self = Normal r self' ->
  StdVector.fits (Full.m_data r).
Proof.
  intros Hbody H. unfold building in H.
  destruct (for_each l body (Full.Store_default V)) as [[] r1 | |] eqn:Hloop;
    try discriminate.
  injection H as <- _.
  apply (for_each_keeps (fun r => StdVector.fits (Full.m_data r)) body Hbody l
           (Full.Store_default V)).
  - apply fits_create.
  - rewrite Hloop. reflexivity.
Qed.

Lemma pushes_keep_fits {X V} (body : X -> method (Full.Store V) unit) :
  (exists f, forall val r, body val r = Full.push_back (f val) r) ->
  forall x r r', StdVector.fits (Full.m_data r) ->
                 state_after (body x r) = Some r' ->
                 StdVector.fits (Full.m_data r').
Proof.
  intros [f Hf] x r r' _ H. rewrite Hf in H.
  injection H as <-. apply fits_push_back.
Qed.

(** The stores of the full variant. *)
Lemma full_reachable_fits T (s : Full.Store T) :
  Full.reachable s -> StdVector.fits (Full.m_data s).
Proof.
  induction 1 as
    [ T | T D n | T l | T c s s' _ IH Hcall
    | T s other s' _ IHs _ IHo Hcall
    | T s other _ IHs _ IHo | T s other _ IHs _ IHo
    | T pred s s' r _ IH Hcall
    | U src s s' r _ IH Hcall
    | fp parser U src s s' r _ IH Hcall
    | U src s s' r _ IH Hcall
    | U src s s' r _ IH Hcall ].
  - apply fits_create.
  - apply fits_create_sized.
  - apply fits_create_from.
  - exact (full_exec_fits c s IH Hcall).
  - unfold Full.plus_assign, Full.on_data, update in Hcall.
    split_outcome Hcall. cbn. eauto 3 with fits.
  - exact IHo.
  - exact IHs.
  - unfold Full.filter in Hcall.
    apply (built_store_fits _ _ _ (self' := s') (r := r)) in Hcall;
      [exact Hcall |].
    intros x r0 r' Hr0 Hx. destruct (pred x).
    + injection Hx as <-. apply fits_push_back.
    + injection Hx as <-. exact Hr0.
  - unfold Full.to_int in Hcall.
    destruct (Full.empty s); [discriminate |].
    apply (built_store_fits _ _ _ (self' := s') (r := r)) in Hcall;
      [exact Hcall |].
    apply pushes_keep_fits, to_int_element_pushes.
  - unfold Full.to_double in Hcall.
    destruct (Full.empty s); [discriminate |].
    apply (built_store_fits _ _ _ (self' := s') (r := r)) in Hcall;
      [exact Hcall |].
    apply pushes_keep_fits, to_double_element_pushes.
  - unfold Full.to_char in Hcall.
    destruct (Full.empty s); [discriminate |].
    apply (built_store_fits _ _ _ (self' := s') (r := r)) in Hcall;
      [exact Hcall |].
    apply pushes_keep_fits, to_char_element_pushes.
  - unfold Full.to_string in Hcall.
    destruct (Full.empty s); [discriminate |].
    apply (built_store_fits _ _ _ (self' := s') (r := r)) in Hcall;
      [exact Hcall |].
    apply pushes_keep_fits, to_string_element_pushes.
Qed.

(** The stores of the minimal variant. *)
Lemma mini_reachable_fits T (s : Mini.Store T) :
  Mini.reachable s -> StdVector.fits (Mini.m_data s).
Proof.
  induction 1 as [ T | T D n | T l | T c s s' _ IH Hcall ].
  - apply fits_create.
  - apply fits_create_sized.
  - apply fits_create_from.
  - exact (mini_exec_fits c s IH Hcall).
Qed.

End ResultInvariant.

(** C8 as stated asks for the invariant after every operation of every
    sequence.  In the minimal variant [pop_back()] on the
    default-constructed store is [m_data.pop_back()] on an empty vector:
    undefined behaviour, with no state after it in which the invariant
    could hold. *)
Lemma size_capacity_invariant_counterexample :
  ~ (forall (c : Mini.call Z) (s : Mini.Store Z),
        @Mini.reachable libstdcxx Z s ->
        Mini.invariant_after (@Mini.exec libstdcxx Z c s)).
Proof.
  intro Hall.
  destruct (Hall Mini.call_pop_back (@Mini.Store_default libstdcxx Z)
              (@Mini.reach_default libstdcxx Z)) as (s' & Hafter & _).
  discriminate Hafter.
Qed.

(** C8, amended. Whatever the capacities the vector implementation
    chooses, every store of either variant that a constructor and any
    sequence of member function calls can produce satisfies
    [0 <= size() <= capacity()]: the invariant holds after every call that
    returns or throws.  A call returns or throws exactly when its
    precondition holds: in the full variant only [operator[]] past the end
    has undefined behaviour; in the minimal variant so have [front],
    [back], [max], [min], [mid] and [pop_back] on an empty store. *)
Theorem size_capacity_invariant {alloc : Allocator} :
  (forall T (s : Full.Store T),
      Full.reachable s -> 0 <= Full.size s <= Full.capacity s) /\
  (forall T (s : Mini.Store T),
      Mini.reachable s -> 0 <= Mini.size s <= Mini.capacity s) /\
  (forall T (c : Full.call T) (s : Full.Store T),
      Full.precondition c s = true <-> state_after (Full.exec c s) <> None) /\
  (forall T (c : Mini.call T) (s : Mini.Store T),
      Mini.precondition c s = true <-> state_after (Mini.exec c s) <> None).
Proof.
  split; [| split; [| split]].
  - intros T s Hs. split; [apply Nat.le_0_l |]. exact (full_reachable_fits Hs).
  - intros T s Hs. split; [apply Nat.le_0_l |]. exact (mini_reachable_fits Hs).
  - intros T c s. apply full_exec_defined.
  - intros T c s. apply mini_exec_defined.
Qed.

(** With libstdc++'s capacities: three [push_back]s, an [at(7)] that
    throws and a [pop_front] lead from the empty store to [2, 3] with
    capacity 4. *)
Lemma size_capacity_invariant_witness :
  0 <= Full.size (Full.mkStore (StdVector.mkVector [2; 3]%Z 4))
    <= Full.capacity (Full.mkStore (StdVector.mkVector [2; 3]%Z 4)) /\
  0 <= Mini.size (Mini.mkStore (StdVector.mkVector [2; 3]%Z 4))
    <= Mini.capacity (Mini.mkStore (StdVector.mkVector [2; 3]%Z 4)).
Proof.
  split.
  - apply (proj1 (@size_capacity_invariant libstdcxx)).
    apply (@Full.reach_call libstdcxx Z Full.call_pop_front
             (Full.mkStore (StdVector.mkVector [1; 2; 3]%Z 4)));
      [| reflexivity].
    apply (@Full.reach_call libstdcxx Z (Full.call_at 7)
             (Full.mkStore (StdVector.mkVector [1; 2; 3]%Z 4)));
      [| reflexivity].
    apply (@Full.reach_call libstdcxx Z (Full.call_push_back 3%Z)
             (Full.mkStore (StdVector.mkVector [1; 2]%Z 2)));
      [| reflexivity].
    apply (@Full.reach_call libstdcxx Z (Full.call_push_back 2%Z)
             (Full.mkStore (StdVector.mkVector [1]%Z 1)));
      [| reflexivity].
    apply (@Full.reach_call libstdcxx Z (Full.call_push_back 1%Z)
             (@Full.Store_default libstdcxx Z));
      [| reflexivity].
    apply Full.reach_default.
  - apply (proj1 (proj2 (@size_capacity_invariant libstdcxx))).
    apply (@Mini.reach_call libstdcxx Z Mini.call_pop_front
             (Mini.mkStore (StdVector.mkVector [1; 2; 3]%Z 4)));
      [| reflexivity].
    apply (@Mini.reach_call libstdcxx Z (Mini.call_at 7)
             (Mini.mkStore (StdVector.mkVector [1; 2; 3]%Z 4)));
      [| reflexivity].
    apply (@Mini.reach_call libstdcxx Z (Mini.call_push_back 3%Z)
             (Mini.mkStore (StdVector.mkVector [1; 2]%Z 2)));
      [| reflexivity].
    apply (@Mini.reach_call libstdcxx Z (Mini.call_push_back 2%Z)
             (Mini.mkStore (StdVector.mkVector [1]%Z 1)));
      [| reflexivity].
    apply (@Mini.reach_call libstdcxx Z (Mini.call_push_back 1%Z)
             (@Mini.Store_default libstdcxx Z));
      [| reflexivity].
    apply Mini.reach_default.
Defined.

(* ===================================================================== *)
(** * Further properties of the member functions *)
(* ===================================================================== *)

(** ** Lists cut at a position *)

Section Cuts.
Variable T : Type.
Implicit Types (l : list T).

Lemma nth_error_firstn_below l pos i :
  i < pos -> nth_error (firstn pos l) i = nth_error l i.
Proof.
  intro Hi. rewrite nth_error_firstn.
  apply Nat.ltb_lt in Hi. rewrite Hi. reflexivity.
Qed.

Lemma length_insert_cut l pos x :
  pos <= length l -> length (firstn pos l ++ x :: skipn pos l) = S (length l).
Proof.
  intro Hle. rewrite length_app, length_firstn. cbn [length].
  rewrite length_skipn. lia.
Qed.

Lemma nth_error_insert_cut l pos x :
  pos <= length l -> nth_error (firstn pos l ++ x :: skipn pos l) pos = Some x.
Proof.
  intro Hle. rewrite nth_error_app2; rewrite length_firstn, Nat.min_l by lia;
    [| lia].
  rewrite Nat.sub_diag. reflexivity.
Qed.

Lemma firstn_insert_cut l pos x :
  pos <= length l -> firstn pos (firstn pos l ++ x :: skipn pos l) = firstn pos l.
Proof.
  intro Hle. rewrite firstn_app, length_firstn, Nat.min_l by lia.
  rewrite Nat.sub_diag, firstn_firstn, Nat.min_id. cbn [firstn].
  apply app_nil_r.
Qed.

Lemma skipn_insert_cut l pos x :
  pos <= length l ->
  skipn (S pos) (firstn pos l ++ x :: skipn pos l) = skipn pos l.
Proof.
  intro Hle. rewrite skipn_app, length_firstn, Nat.min_l by lia.
  rewrite skipn_all2 by (rewrite length_firstn; lia).
  replace (S pos - pos) with 1 by lia. reflexivity.
Qed.

Lemma length_erase_cut l pos :
  pos < length l -> S (length (firstn pos l ++ skipn (S pos) l)) = length l.
Proof.
  intro Hlt. rewrite length_app, length_firstn, length_skipn. lia.
Qed.

(** Behind a removed position everything moves down by one. *)
Lemma nth_error_erase_cut l pos i :
  pos < length l ->
  nth_error (firstn pos l ++ skipn (S pos) l) i
  = if i <? pos then nth_error l i else nth_error l (S i).
Proof.
  intro Hlt. destruct (Nat.ltb_spec i pos) as [Hi | Hi].
  - rewrite nth_error_app1 by (rewrite length_firstn; lia).
    apply nth_error_firstn_below; exact Hi.
  - rewrite nth_error_app2; rewrite length_firstn, Nat.min_l by lia; [| lia].
    rewrite nth_error_skipn. f_equal. lia.
Qed.

(** Behind an inserted position everything moves up by one. *)
Lemma nth_error_insert_cut_other l pos x i :
  pos <= length l ->
  i <> pos ->
  nth_error (firstn pos l ++ x :: skipn pos l) i
  = if i <? pos then nth_error l i else nth_error l (i - 1).
Proof.
  intros Hle Hne. destruct (Nat.ltb_spec i pos) as [Hi | Hi].
  - rewrite nth_error_app1 by (rewrite length_firstn; lia).
    apply nth_error_firstn_below; exact Hi.
  - rewrite nth_error_app2; rewrite length_firstn, Nat.min_l by lia; [| lia].
    destruct (i - pos) as [| k] eqn:Hk; [lia |].
    cbn [nth_error]. rewrite nth_error_skipn. f_equal. lia.
Qed.

Lemma nth_error_assign_cut l pos x i :
  pos < length l ->
  nth_error (firstn pos l ++ x :: skipn (S pos) l) i
  = if i =? pos then Some x else nth_error l i.
Proof.
  intro Hlt. destruct (Nat.eqb_spec i pos) as [-> | Hne].
  - rewrite nth_error_app2; rewrite length_firstn, Nat.min_l by lia; [| lia].
    rewrite Nat.sub_diag. reflexivity.
  - destruct (Nat.lt_ge_cases i pos) as [Hi | Hi].
    + rewrite nth_error_app1 by (rewrite length_firstn; lia).
      apply nth_error_firstn_below; exact Hi.
    + rewrite nth_error_app2; rewrite length_firstn, Nat.min_l by lia; [| lia].
      destruct (i - pos) as [| k] eqn:Hk; [lia |].
      cbn [nth_error]. rewrite nth_error_skipn. f_equal. lia.
Qed.

End Cuts.

(** ** insert, remove_at, replace_at *)

Section Positions.
Context {alloc : Allocator}.
Variable T : Type.
Implicit Types (s : Full.Store T).

Local Abbreviation elements s := (StdVector.items (Full.m_data s)).

Lemma full_insert_in_range s pos value :
  pos <= Full.size s ->
  Full.insert pos value s
  = Normal tt (Full.mkStore
                 (StdVector.mkVector
                    (firstn pos (elements s) ++ value :: skipn pos (elements s))
                    (StdVector.room_for (S (Full.size s)) (Full.m_data s)))).
Proof.
  intro Hle. unfold Full.insert, Full.on_data, update, StdVector.insert.
  destruct (Nat.ltb_spec (Full.size s) pos) as [Hlt | _]; [lia |].
  unfold Full.size in Hle. apply Nat.leb_le in Hle. rewrite Hle. reflexivity.
Qed.

Lemma mini_insert_in_range (m : Mini.Store T) pos value :
  pos <= Mini.size m ->
  Mini.insert pos value m
  = Normal tt (Mini.mkStore
                 (StdVector.mkVector
                    (firstn pos (StdVector.items (Mini.m_data m))
                     ++ value :: skipn pos (StdVector.items (Mini.m_data m)))
                    (StdVector.room_for (S (Mini.size m)) (Mini.m_data m)))).
Proof.
  intro Hle. unfold Mini.insert, Mini.on_data, update, StdVector.insert.
  unfold Mini.size in *. apply Nat.leb_le in Hle. rewrite Hle. reflexivity.
Qed.

Lemma full_remove_at_in_range s pos :
  pos < Full.size s ->
  Full.remove_at pos s
  = Normal tt (Full.mkStore
                 (StdVector.mkVector
                    (firstn pos (elements s) ++ skipn (S pos) (elements s))
                    (Full.capacity s))).
Proof.
  intro Hlt. unfold Full.remove_at, Full.on_data, update, StdVector.erase.
  destruct (Nat.leb_spec (Full.size s) pos) as [Hle | _]; [lia |].
  unfold Full.size in Hlt. apply Nat.ltb_lt in Hlt. rewrite Hlt. reflexivity.
Qed.

Lemma mini_remove_at_in_range (m : Mini.Store T) pos :
  pos < Mini.size m ->
  Mini.remove_at pos m
  = Normal tt (Mini.mkStore
                 (StdVector.mkVector
                    (firstn pos (StdVector.items (Mini.m_data m))
                     ++ skipn (S pos) (StdVector.items (Mini.m_data m)))
                    (Mini.capacity m))).
Proof.
  intro Hlt. unfold Mini.remove_at, Mini.on_data, update, StdVector.erase.
  unfold Mini.size in *. apply Nat.ltb_lt in Hlt. rewrite Hlt. reflexivity.
Qed.

Lemma full_replace_at_in_range s pos value :
  pos < Full.size s ->
  Full.replace_at pos value s
  = Normal tt (Full.mkStore
                 (StdVector.mkVector
                    (firstn pos (elements s) ++ value :: skipn (S pos) (elements s))
                    (Full.capacity s))).
Proof.
  intro Hlt. unfold Full.replace_at, Full.on_data, update, StdVector.assign.
  destruct (Nat.leb_spec (Full.size s) pos) as [Hle | _]; [lia |].
  unfold Full.size in Hlt. apply Nat.ltb_lt in Hlt. rewrite Hlt. reflexivity.
Qed.

(** X1. [insert(pos, value)] with [pos > size] throws OutOfRange in the
    full variant and silently does nothing in the minimal variant; with
    [pos <= size] both variants put [value] at [pos], leave what was in
    front of [pos] in place and move what was at or behind [pos] up by
    one, so the size grows by one. *)
Theorem insert_in_both_variants s pos value :
  (Full.size s < pos ->
   Full.insert pos value s = Raised OutOfRange s /\
   Mini.insert pos value (Variants.to_mini s) = Normal tt (Variants.to_mini s)) /\
  (pos <= Full.size s ->
   exists s',
     Full.insert pos value s = Normal tt s' /\
     Mini.insert pos value (Variants.to_mini s) = Normal tt (Variants.to_mini s') /\
     Full.size s' = S (Full.size s) /\
     forall i, nth_error (elements s') i
               = if i <? pos then nth_error (elements s) i
                 else if i =? pos then Some value
                      else nth_error (elements s) (i - 1)).
Proof.
  split.
  - intro Hlt. split.
    + unfold Full.insert. apply Nat.ltb_lt in Hlt. rewrite Hlt. reflexivity.
    + unfold Mini.insert.
      change (Mini.size (Variants.to_mini s)) with (Full.size s).
      apply Nat.leb_gt in Hlt. rewrite Hlt. reflexivity.
  - intro Hle. eexists. split; [apply (full_insert_in_range s value Hle) |].
    split; [apply (mini_insert_in_range (Variants.to_mini s) value Hle) |].
    unfold Full.size, StdVector.size in *. cbn [Full.m_data StdVector.items].
    split; [apply length_insert_cut; exact Hle |].
    intro i. destruct (Nat.eqb_spec i pos) as [-> | Hne].
    + rewrite Nat.ltb_irrefl. apply nth_error_insert_cut; exact Hle.
    + apply nth_error_insert_cut_other; assumption.
Qed.

(** X2. [remove_at(pos)] with [pos >= size] throws OutOfRange in the full
    variant and silently does nothing in the minimal variant; with
    [pos < size] both variants remove exactly the element at [pos]: what
    was in front stays, what was behind moves down by one, the capacity is
    kept. *)
Theorem remove_at_in_both_variants s pos :
  (Full.size s <= pos ->
   Full.remove_at pos s = Raised OutOfRange s /\
   Mini.remove_at pos (Variants.to_mini s) = Normal tt (Variants.to_mini s)) /\
  (pos < Full.size s ->
   exists s',
     Full.remove_at pos s = Normal tt s' /\
     Mini.remove_at pos (Variants.to_mini s) = Normal tt (Variants.to_mini s') /\
     S (Full.size s') = Full.size s /\
     Full.capacity s' = Full.capacity s /\
     forall i, nth_error (elements s') i
               = if i <? pos then nth_error (elements s) i
                 else nth_error (elements s) (S i)).
Proof.
  split.
  - intro Hle. split.
    + unfold Full.remove_at. apply Nat.leb_le in Hle. rewrite Hle. reflexivity.
    + unfold Mini.remove_at.
      change (Mini.size (Variants.to_mini s)) with (Full.size s).
      apply Nat.ltb_ge in Hle. rewrite Hle. reflexivity.
  - intro Hlt. eexists. split; [apply (full_remove_at_in_range s Hlt) |].
    split; [apply (mini_remove_at_in_range (Variants.to_mini s) Hlt) |].
    unfold Full.size, Full.capacity, StdVector.size in *.
    cbn [Full.m_data StdVector.items StdVector.capacity StdVector.reserved].
    split; [apply length_erase_cut; exact Hlt |].
    split; [reflexivity |].
    intro i. apply nth_error_erase_cut; exact Hlt.
Qed.

(** X3. After a successful [insert(pos, value)], [at(pos)] returns
    [value], and [remove_at(pos)] gives back the elements the store had
    before the insertion. *)
Theorem insert_then_remove_at s pos value :
  pos <= Full.size s ->
  exists s' s'',
    Full.insert pos value s = Normal tt s' /\
    Full.at_ pos s' = Normal value s' /\
    Full.remove_at pos s' = Normal tt s'' /\
    elements s'' = elements s.
Proof.
  intro Hle. pose proof (full_insert_in_range s value Hle) as Hins.
  set (s' := Full.mkStore _) in Hins.
  assert (Hsize : Full.size s' = S (Full.size s)).
  { unfold s', Full.size, StdVector.size in *. cbn [Full.m_data StdVector.items].
    apply length_insert_cut; exact Hle. }
  assert (Hlt : pos < Full.size s') by lia.
  exists s'. eexists. split; [exact Hins |].
  split; [| split; [apply (full_remove_at_in_range s' Hlt) |]].
  - destruct (full_at_in_range s' Hlt) as (x & Hx & Hat).
    unfold s' in Hx. cbn [Full.m_data StdVector.items] in Hx.
    unfold Full.size, StdVector.size in Hle.
    rewrite (nth_error_insert_cut _ value Hle) in Hx.
    injection Hx as <-. exact Hat.
  - unfold s'. cbn [Full.m_data StdVector.items].
    unfold Full.size, StdVector.size in Hle.
    rewrite firstn_insert_cut, skipn_insert_cut by exact Hle.
    apply firstn_skipn.
Qed.

(** X4. [replace_at(pos, value)] throws OutOfRange exactly when
    [pos >= size], leaving the store unchanged; otherwise [at(pos)] then
    returns [value], every other position holds what it held, and size
    and capacity are the same. *)
Theorem replace_at_overwrites_one s pos value :
  guarded_by (Full.replace_at pos value) OutOfRange (Full.size s <= pos) s /\
  (pos < Full.size s ->
   exists s',
     Full.replace_at pos value s = Normal tt s' /\
     Full.at_ pos s' = Normal value s' /\
     Full.size s' = Full.size s /\
     Full.capacity s' = Full.capacity s /\
     forall i, i <> pos -> nth_error (elements s') i = nth_error (elements s) i).
Proof.
  assert (Hin : pos < Full.size s ->
                exists s',
                  Full.replace_at pos value s = Normal tt s' /\
                  Full.at_ pos s' = Normal value s' /\
                  Full.size s' = Full.size s /\
                  Full.capacity s' = Full.capacity s /\
                  forall i, i <> pos ->
                            nth_error (elements s') i = nth_error (elements s) i).
  { intro Hlt. pose proof (full_replace_at_in_range s value Hlt) as Hrep.
    set (s' := Full.mkStore _) in Hrep.
    assert (Hnth : forall i, nth_error (elements s') i
                             = if i =? pos then Some value
                               else nth_error (elements s) i).
    { intro i. apply nth_error_assign_cut. exact Hlt. }
    assert (Hsize : Full.size s' = Full.size s).
    { unfold s', Full.size, StdVector.size in *.
      cbn [Full.m_data StdVector.items].
      rewrite length_app, length_firstn. cbn [length].
      rewrite length_skipn. lia. }
    exists s'. split; [exact Hrep |]. split; [| split; [exact Hsize | split]].
    - destruct (@full_at_in_range T s' pos) as (x & Hx & Hat); [lia |].
      rewrite Hnth, Nat.eqb_refl in Hx. injection Hx as <-. exact Hat.
    - reflexivity.
    - intros i Hne. rewrite Hnth.
      destruct (Nat.eqb_spec i pos); [contradiction | reflexivity]. }
  split; [| exact Hin].
  apply guarded_by_intro.
  - intro Hle. unfold Full.replace_at. apply Nat.leb_le in Hle. rewrite Hle.
    reflexivity.
  - intro Hgt. destruct Hin as (s' & Hrep & _); [lia |].
    exists tt, s'. exact Hrep.
  - lia.
Qed.

End Positions.

Lemma insert_in_both_variants_witness :
  @Full.insert libstdcxx Z 7 9%Z (@Full.Store_list libstdcxx Z [1; 2; 3]%Z)
  = Raised OutOfRange (@Full.Store_list libstdcxx Z [1; 2; 3]%Z) /\
  exists s',
    @Full.insert libstdcxx Z 1 9%Z (@Full.Store_list libstdcxx Z [1; 2; 3]%Z)
    = Normal tt s' /\
    nth_error (StdVector.items (Full.m_data s')) 1 = Some 9%Z /\
    nth_error (StdVector.items (Full.m_data s')) 2 = Some 2%Z.
Proof.
  destruct (@insert_in_both_variants libstdcxx Z
              (@Full.Store_list libstdcxx Z [1; 2; 3]%Z) 7 9%Z) as [Hout _].
  destruct (@insert_in_both_variants libstdcxx Z
              (@Full.Store_list libstdcxx Z [1; 2; 3]%Z) 1 9%Z) as [_ Hin].
  split.
  - apply Hout. cbv. lia.
  - destruct Hin as (s' & Hcall & _ & _ & Hnth); [cbv; lia |].
    exists s'. split; [exact Hcall |].
    rewrite (Hnth 1), (Hnth 2). split; reflexivity.
Defined.

Lemma remove_at_in_both_variants_witness :
  @Full.remove_at Z 3 (@Full.Store_list libstdcxx Z [1; 2; 3]%Z)
  = Raised OutOfRange (@Full.Store_list libstdcxx Z [1; 2; 3]%Z) /\
  exists s',
    @Full.remove_at Z 0 (@Full.Store_list libstdcxx Z [1; 2; 3]%Z) = Normal tt s' /\
    nth_error (StdVector.items (Full.m_data s')) 0 = Some 2%Z.
Proof.
  destruct (@remove_at_in_both_variants Z
              (@Full.Store_list libstdcxx Z [1; 2; 3]%Z) 3) as [Hout _].
  destruct (@remove_at_in_both_variants Z
              (@Full.Store_list libstdcxx Z [1; 2; 3]%Z) 0) as [_ Hin].
  split.
  - apply Hout. cbv. lia.
  - destruct Hin as (s' & Hcall & _ & _ & _ & Hnth); [cbv; lia |].
    exists s'. split; [exact Hcall |]. rewrite (Hnth 0). reflexivity.
Defined.

Lemma insert_then_remove_at_witness :
  exists s' s'',
    @Full.insert libstdcxx Z 3 9%Z (@Full.Store_list libstdcxx Z [1; 2; 3]%Z)
    = Normal tt s' /\
    Full.at_ 3 s' = Normal 9%Z s' /\
    Full.remove_at 3 s' = Normal tt s'' /\
    StdVector.items (Full.m_data s'') = [1; 2; 3]%Z.
Proof.
  apply (@insert_then_remove_at libstdcxx Z
           (@Full.Store_list libstdcxx Z [1; 2; 3]%Z) 3 9%Z).
  cbv. lia.
Defined.

Lemma replace_at_overwrites_one_witness :
  exists s',
    @Full.replace_at Z 1 9%Z (@Full.Store_list libstdcxx Z [1; 2; 3]%Z)
    = Normal tt s' /\
    Full.at_ 1 s' = Normal 9%Z s'.
Proof.
  destruct (@replace_at_overwrites_one Z
              (@Full.Store_list libstdcxx Z [1; 2; 3]%Z) 1 9%Z) as [_ Hin].
  destruct Hin as (s' & Hcall & Hat & _); [cbv; lia |].
  exists s'. split; assumption.
Defined.

(** ** The two ends *)

Section Ends.
Context {alloc : Allocator}.
Variable T : Type.
Implicit Types (s : Full.Store T) (l : list T).

Local Abbreviation elements s := (StdVector.items (Full.m_data s)).

Lemma last_of_cons l : forall (y d : T), last (y :: l) d = last l y.
Proof.
  induction l as [| z l IH]; intros y d; [reflexivity |].
  change (last (y :: z :: l) d) with (last (z :: l) d).
  rewrite (IH z d), (IH z y). reflexivity.
Qed.

Lemma vector_back_last l x cap :
  StdVector.back (StdVector.mkVector (l ++ [x]) cap) = Some x.
Proof.
  unfold StdVector.back. cbn [StdVector.items].
  destruct l as [| y l]; cbn [app]; [reflexivity |].
  rewrite last_last. reflexivity.
Qed.

Lemma vector_pop_back_last l x cap :
  StdVector.pop_back (StdVector.mkVector (l ++ [x]) cap)
  = Some (StdVector.mkVector l cap).
Proof.
  unfold StdVector.pop_back, StdVector.capacity.
  cbn [StdVector.items StdVector.reserved].
  rewrite removelast_last.
  destruct l as [| y l]; reflexivity.
Qed.

Lemma full_back_of_last l x cap :
  Full.back (Full.mkStore (StdVector.mkVector (l ++ [x]) cap))
  = Normal x (Full.mkStore (StdVector.mkVector (l ++ [x]) cap)).
Proof.
  unfold Full.back, Full.deref, Full.empty, StdVector.empty.
  cbn [Full.m_data StdVector.items]. rewrite vector_back_last.
  destruct l; reflexivity.
Qed.

Lemma full_pop_back_of_last l x cap :
  Full.pop_back (Full.mkStore (StdVector.mkVector (l ++ [x]) cap))
  = Normal tt (Full.mkStore (StdVector.mkVector l cap)).
Proof.
  unfold Full.pop_back, Full.on_data, update, Full.empty, StdVector.empty.
  cbn [Full.m_data StdVector.items]. rewrite vector_pop_back_last.
  destruct l; reflexivity.
Qed.

(** X5. [pop_back()] throws OutOfRange exactly on the empty store.  On a
    store whose [back()] is [x] it removes that last element and nothing
    else, keeping the capacity.  After [push_back(value)], [back()]
    returns [value] and [pop_back()] gives back the elements the store had
    before. *)
Theorem push_back_pop_back s value :
  guarded_by (@Full.pop_back T) OutOfRange (Full.empty s = true) s /\
  (forall x, Full.back s = Normal x s ->
             exists s', Full.pop_back s = Normal tt s' /\
                        elements s = elements s' ++ [x] /\
                        Full.capacity s' = Full.capacity s) /\
  (exists s', Full.push_back value s = Normal tt s' /\
              Full.back s' = Normal value s' /\
              Full.size s' = S (Full.size s) /\
              exists s'', Full.pop_back s' = Normal tt s'' /\
                          elements s'' = elements s).
Proof.
  destruct s as [[l cap]].
  assert (Hlast : forall x,
             Full.back (Full.mkStore (StdVector.mkVector l cap))
             = Normal x (Full.mkStore (StdVector.mkVector l cap)) ->
             l = removelast l ++ [x]).
  { intros x Hback. destruct l as [| y r]; [discriminate |].
    unfold Full.back, Full.deref, Full.empty, StdVector.empty, StdVector.back in Hback.
    cbn [Full.m_data StdVector.items] in Hback. injection Hback as <-.
    rewrite <- (last_of_cons r y y). apply app_removelast_last. discriminate. }
  split; [| split].
  - apply guarded_by_intro.
    + intro He. unfold Full.pop_back. rewrite He. reflexivity.
    + intro He. destruct l as [| y r]; [exfalso; apply He; reflexivity |].
      rewrite (app_removelast_last y (l := y :: r)) by discriminate.
      rewrite full_pop_back_of_last. eexists. eexists. reflexivity.
    + apply bool_true_or_not.
  - intros x Hback. specialize (Hlast x Hback).
    exists (Full.mkStore (StdVector.mkVector (removelast l) cap)).
    split; [| split; [exact Hlast | reflexivity]].
    rewrite Hlast at 1. apply full_pop_back_of_last.
  - eexists. split; [reflexivity |].
    unfold StdVector.push_back. cbn [Full.m_data StdVector.items].
    split; [apply full_back_of_last |].
    split.
    + unfold Full.size, StdVector.size. cbn [Full.m_data StdVector.items].
      rewrite length_app. cbn [length]. lia.
    + eexists. split; [apply full_pop_back_of_last | reflexivity].
Qed.

(** X6. After [push_front(value)], in either variant, [front()] returns
    [value], every old element sits one position further back, and
    [pop_front()] gives back the elements the store had before. *)
Theorem push_front_pop_front s value :
  (exists s', Full.push_front value s = Normal tt s' /\
              elements s' = value :: elements s /\
              Full.front s' = Normal value s' /\
              exists s'', Full.pop_front s' = Normal tt s'' /\
                          elements s'' = elements s) /\
  (exists m', Mini.push_front value (Variants.to_mini s) = Normal tt m' /\
              StdVector.items (Mini.m_data m') = value :: elements s /\
              Mini.front m' = Normal value m' /\
              exists m'', Mini.pop_front m' = Normal tt m'' /\
                          StdVector.items (Mini.m_data m'') = elements s).
Proof.
  destruct s as [[l cap]]. split.
  - eexists. split; [reflexivity |]. split; [reflexivity |].
    split; [reflexivity |]. eexists. split; reflexivity.
  - eexists. split; [reflexivity |]. split; [reflexivity |].
    split; [reflexivity |]. eexists. split; reflexivity.
Qed.

Lemma full_push_front_cons s value :
  exists s', Full.push_front value s = Normal tt s' /\
             elements s' = value :: elements s.
Proof. destruct s as [[l cap]]. eexists. split; reflexivity. Qed.

(** X7. [push_front] of a whole container keeps the container's order in
    front of the old elements, while pushing its elements to the front
    one by one leaves them in reverse order. *)
Theorem push_front_range_keeps_order s (container : list T) :
  (exists s', Full.push_front_range container s = Normal tt s' /\
              elements s' = container ++ elements s) /\
  (exists s', for_each container (@Full.push_front alloc T) s = Normal tt s' /\
              elements s' = rev container ++ elements s).
Proof.
  split.
  - destruct s as [[l cap]]. eexists. split; reflexivity.
  - revert s. induction container as [| x r IH]; intro s.
    + exists s. split; reflexivity.
    + destruct (full_push_front_cons s x) as (s1 & H1 & E1).
      destruct (IH s1) as (s2 & H2 & E2).
      exists s2. cbn [for_each]. unfold bind. rewrite H1.
      split; [exact H2 |].
      rewrite E2, E1. cbn [rev]. rewrite <- app_assoc. reflexivity.
Qed.

(** X8. [operator+=] and [push_back] of a whole container append the
    other elements in their order behind the old ones; both leave the
    same store, with the elements that pushing them to the back one by
    one would give, and the sizes add up. *)
Theorem append_range s (other : Full.Store T) :
  exists s',
    Full.plus_assign other s = Normal tt s' /\
    Full.push_back_range (elements other) s = Normal tt s' /\
    elements s' = elements s ++ elements other /\
    Full.size s' = Full.size s + Full.size other /\
    exists s'', for_each (elements other) (@Full.push_back alloc T) s
                = Normal tt s'' /\
                elements s'' = elements s'.
Proof.
  assert (Hrange :
            StdVector.insert_range (Full.size s) (elements other) (Full.m_data s)
            = Some (StdVector.mkVector
                      (elements s ++ elements other)
                      (StdVector.room_for
                         (StdVector.size (Full.m_data s) + length (elements other))
                         (Full.m_data s)))).
  { unfold StdVector.insert_range, Full.size.
    rewrite Nat.leb_refl. unfold StdVector.size.
    rewrite firstn_all, skipn_all, app_nil_r. reflexivity. }
  eexists. split; [| split; [| split; [| split]]].
  - unfold Full.plus_assign, Full.on_data, update. rewrite Hrange. reflexivity.
  - unfold Full.push_back_range, Full.on_data, update. rewrite Hrange.
    reflexivity.
  - reflexivity.
  - unfold Full.size, StdVector.size. cbn [Full.m_data StdVector.items].
    apply length_app.
  - destruct (full_for_each_appends (fun x : T => [x]) (@Full.push_back alloc T))
      with (l := elements other) (r := s) as (s'' & Hloop & Hitems).
    { intros x r. apply full_push_back_items. }
    exists s''. split; [exact Hloop |]. rewrite Hitems.
    cbn [Full.m_data StdVector.items]. f_equal.
    clear. induction (elements other) as [| x l IH]; [reflexivity |].
    cbn [flat_map app]. rewrite IH. reflexivity.
Qed.

End Ends.

Lemma push_back_pop_back_witness :
  exists s',
    @Full.pop_back Z (@Full.Store_list libstdcxx Z [1; 2; 3]%Z) = Normal tt s' /\
    [1; 2; 3]%Z = StdVector.items (Full.m_data s') ++ [3]%Z.
Proof.
  destruct (@push_back_pop_back libstdcxx Z
              (@Full.Store_list libstdcxx Z [1; 2; 3]%Z) 0%Z) as (_ & Hpop & _).
  destruct (Hpop 3%Z) as (s' & Hcall & Hitems & _); [reflexivity |].
  exists s'. split; [exact Hcall | exact Hitems].
Defined.

(** ** max and min *)

Section Extremes.
Variable T : Type.
Context {E : EqOp T} {L : LtOp T} {G : GtOp T} {TO : TotalOrder T}.

Lemma max_scan_greatest (rest : list T) :
  forall largest,
    In (Algo.max_scan largest rest) (largest :: rest) /\
    forall y, In y (largest :: rest) ->
              lt_op (Algo.max_scan largest rest) y = false.
Proof.
  induction rest as [| x r IH]; intro largest; cbn [Algo.max_scan].
  - split; [left; reflexivity |].
    intros y [<- | []]. apply lt_op_irrefl.
  - set (next := if lt_op largest x then x else largest).
    destruct (IH next) as [Hin Hge].
    assert (Hnext : lt_op next largest = false /\ lt_op next x = false).
    { unfold next. destruct (lt_op largest x) eqn:Hlt.
      - split; [apply (lt_le Hlt) | apply lt_op_irrefl].
      - split; [apply lt_op_irrefl | exact Hlt]. }
    split.
    + destruct Hin as [Heq | Hin]; [| right; right; exact Hin].
      rewrite <- Heq. unfold next.
      destruct (lt_op largest x); [right; left | left]; reflexivity.
    + intros y [<- | [<- | Hy]].
      * apply (le_trans (y := next)); [apply Hnext | apply Hge; left; reflexivity].
      * apply (le_trans (y := next)); [apply Hnext | apply Hge; left; reflexivity].
      * apply Hge. right. exact Hy.
Qed.

Lemma min_scan_least (rest : list T) :
  forall smallest,
    In (Algo.min_scan smallest rest) (smallest :: rest) /\
    forall y, In y (smallest :: rest) ->
              lt_op y (Algo.min_scan smallest rest) = false.
Proof.
  induction rest as [| x r IH]; intro smallest; cbn [Algo.min_scan].
  - split; [left; reflexivity |].
    intros y [<- | []]. apply lt_op_irrefl.
  - set (next := if lt_op x smallest then x else smallest).
    destruct (IH next) as [Hin Hle].
    assert (Hnext : lt_op smallest next = false /\ lt_op x next = false).
    { unfold next. destruct (lt_op x smallest) eqn:Hlt.
      - split; [apply (lt_le Hlt) | apply lt_op_irrefl].
      - split; [apply lt_op_irrefl | exact Hlt]. }
    split.
    + destruct Hin as [Heq | Hin]; [| right; right; exact Hin].
      rewrite <- Heq. unfold next.
      destruct (lt_op x smallest); [right; left | left]; reflexivity.
    + intros y [<- | [<- | Hy]].
      * apply (le_trans (y := next)); [apply Hle; left; reflexivity | apply Hnext].
      * apply (le_trans (y := next)); [apply Hle; left; reflexivity | apply Hnext].
      * apply Hle. right. exact Hy.
Qed.

(** X9. For elements with a total order and a non-empty store, [max()]
    returns an element of the store that no element exceeds, and [min()]
    one that exceeds no element; the minimal variant returns the same
    two elements. *)
Theorem max_min_are_extremes (s : Full.Store T) :
  Full.empty s = false ->
  exists hi lo,
    Full.max s = Normal hi s /\
    Full.min s = Normal lo s /\
    Mini.max (Variants.to_mini s) = Normal hi (Variants.to_mini s) /\
    Mini.min (Variants.to_mini s) = Normal lo (Variants.to_mini s) /\
    In hi (StdVector.items (Full.m_data s)) /\
    In lo (StdVector.items (Full.m_data s)) /\
    forall y, In y (StdVector.items (Full.m_data s)) ->
              lt_op hi y = false /\ lt_op y lo = false.
Proof.
  destruct s as [[l cap]]. intro Hne.
  destruct l as [| x r]; [discriminate |].
  destruct (max_scan_greatest r x) as [Hmax_in Hmax].
  destruct (min_scan_least r x) as [Hmin_in Hmin].
  exists (Algo.max_scan x r), (Algo.min_scan x r).
  repeat (split; [reflexivity |]).
  cbn [Full.m_data StdVector.items].
  split; [exact Hmax_in |]. split; [exact Hmin_in |].
  intros y Hy. split; [apply Hmax | apply Hmin]; exact Hy.
Qed.

End Extremes.

Lemma max_min_are_extremes_witness :
  Full.max (@Full.Store_list libstdcxx Z [5; 2; 8; 1; 9; 2; 5]%Z)
  = Normal 9%Z (@Full.Store_list libstdcxx Z [5; 2; 8; 1; 9; 2; 5]%Z) /\
  Full.min (@Full.Store_list libstdcxx Z [5; 2; 8; 1; 9; 2; 5]%Z)
  = Normal 1%Z (@Full.Store_list libstdcxx Z [5; 2; 8; 1; 9; 2; 5]%Z).
Proof.
  destruct (@max_min_are_extremes Z _ _ _ int_total_order
              (@Full.Store_list libstdcxx Z [5; 2; 8; 1; 9; 2; 5]%Z))
    as (hi & lo & Hmax & Hmin & _); [reflexivity |].
  split.
  - rewrite Hmax. cbv in Hmax. injection Hmax as Hhi. rewrite <- Hhi.
    reflexivity.
  - rewrite Hmin. cbv in Hmin. injection Hmin as Hlo. rewrite <- Hlo.
    reflexivity.
Defined.

(** ** Searching *)

Section Search.
Variable T : Type.
Implicit Types (s : Full.Store T) (l : list T).

Lemma find_all_from_spec (pred : T -> bool) l :
  forall i,
    StronglySorted lt (Full.find_all_from pred i l) /\
    forall k, In k (Full.find_all_from pred i l)
              <-> i <= k /\ exists x, nth_error l (k - i) = Some x /\ pred x = true.
Proof.
  induction l as [| y r IH]; intro i; cbn [Full.find_all_from].
  - split; [constructor |].
    intro k. split; [intros [] |].
    intros (_ & x & Hx & _). destruct (k - i); discriminate.
  - destruct (IH (S i)) as [Hsorted Hin].
    assert (Hrest : forall k, In k (Full.find_all_from pred (S i) r)
                              <-> i < k /\ exists x, nth_error (y :: r) (k - i) = Some x
                                                     /\ pred x = true).
    { intro k. rewrite Hin. split.
      - intros (Hk & x & Hx & Hp). split; [lia |].
        exists x. split; [| exact Hp].
        replace (k - i) with (S (k - S i)) by lia. exact Hx.
      - intros (Hk & x & Hx & Hp). split; [lia |].
        exists x. split; [| exact Hp].
        replace (k - i) with (S (k - S i)) in Hx by lia. exact Hx. }
    destruct (pred y) eqn:Hy.
    + split.
      * constructor; [exact Hsorted |].
        apply Forall_forall. intros k Hk. apply Hrest in Hk. lia.
      * intro k. cbn [In]. rewrite Hrest. split.
        -- intros [<- | (Hk & Hx)].
           ++ split; [lia |]. exists y. rewrite Nat.sub_diag. auto.
           ++ split; [lia | exact Hx].
        -- intros (Hk & x & Hx & Hp).
           destruct (Nat.eq_dec i k) as [-> | Hne]; [left; reflexivity |].
           right. split; [lia |]. exists x. auto.
    + split; [exact Hsorted |].
      intro k. rewrite Hrest. split.
      * intros (Hk & Hx). split; [lia | exact Hx].
      * intros (Hk & x & Hx & Hp).
        destruct (Nat.eq_dec i k) as [-> | Hne].
        -- rewrite Nat.sub_diag in Hx. injection Hx as <-. congruence.
        -- split; [lia |]. exists x. auto.
Qed.

(** X10. [find_all_if(pred)] returns, in strictly ascending order, exactly
    the positions whose element satisfies [pred]; [find_all(value)] does
    so for the elements equal to [value]. *)
Theorem find_all_lists_matching_positions (pred : T -> bool) {E : EqOp T}
        (value : T) s :
  (StronglySorted lt (Full.find_all_if pred s) /\
   forall k, In k (Full.find_all_if pred s)
             <-> exists x, nth_error (StdVector.items (Full.m_data s)) k = Some x
                           /\ pred x = true) /\
  (StronglySorted lt (Full.find_all value s) /\
   forall k, In k (Full.find_all value s)
             <-> exists x, nth_error (StdVector.items (Full.m_data s)) k = Some x
                           /\ eq_op x value = true).
Proof.
  assert (Hgen : forall p : T -> bool,
             StronglySorted lt (Full.find_all_from p 0 (StdVector.items (Full.m_data s))) /\
             forall k, In k (Full.find_all_from p 0 (StdVector.items (Full.m_data s)))
                       <-> exists x, nth_error (StdVector.items (Full.m_data s)) k = Some x
                                     /\ p x = true).
  { intro p. destruct (find_all_from_spec p (StdVector.items (Full.m_data s)) 0)
      as [Hsorted Hin].
    split; [exact Hsorted |]. intro k. rewrite Hin, Nat.sub_0_r.
    split; [intros [_ H]; exact H | intro H; split; [lia | exact H]]. }
  split; [apply (Hgen pred) | apply (Hgen (fun x => eq_op x value))].
Qed.

Lemma algo_find_spec {E : EqOp T} (value : T) l :
  match Algo.find l value with
  | Some i => (exists x, nth_error l i = Some x /\ eq_op x value = true) /\
              forall j y, j < i -> nth_error l j = Some y -> eq_op y value = false
  | None => forall y, In y l -> eq_op y value = false
  end.
Proof.
  induction l as [| x r IH]; cbn [Algo.find].
  - intros y [].
  - destruct (eq_op x value) eqn:Hx.
    + split; [exists x; auto |]. intros j y Hj. lia.
    + destruct (Algo.find r value) as [i |]; cbn [option_map].
      * destruct IH as [Hfound Hbefore]. split; [exact Hfound |].
        intros [| j] y Hj Hy.
        -- injection Hy as <-. exact Hx.
        -- apply (Hbefore j); [lia | exact Hy].
      * intros y [<- | Hy]; [exact Hx | apply IH; exact Hy].
Qed.


Lemma filter_none (p : T -> bool) l :
  (forall y, In y l -> p y = false) -> filter p l = [].
Proof.
  induction l as [| x r IH]; intro H; cbn [filter]; [reflexivity |].
  rewrite (H x (or_introl eq_refl)). apply IH.
  intros y Hy. apply H. right. exact Hy.
Qed.

Lemma contains_as_any (E : EqOp T) (value : T) l :
  match Algo.find l value with Some _ => true | None => false end
  = existsb (fun x => eq_op x value) l.
Proof.
  induction l as [| x r IH]; cbn [Algo.find existsb]; [reflexivity |].
  destruct (eq_op x value); [reflexivity |].
  cbn [orb]. rewrite <- IH. destruct (Algo.find r value); reflexivity.
Qed.

(** X11. [contains(value)] is true exactly when some element is [==] to
    [value]; the value overload of [any_of] agrees with it and that of
    [none_of] is its negation.  [none_of(pred)] is the negation of
    [any_of(pred)], [all_of(pred)] holds exactly when no element fails
    [pred], and [any_of(pred)] holds exactly when [find_all_if(pred)]
    finds a position. *)
Theorem queries_agree {E : EqOp T} (pred : T -> bool) (value : T) s :
  (Full.contains value s = true
   <-> exists x, In x (StdVector.items (Full.m_data s)) /\ eq_op x value = true) /\
  Full.any_of_value value s = Full.contains value s /\
  Full.none_of_value value s = negb (Full.contains value s) /\
  Full.none_of pred s = negb (Full.any_of pred s) /\
  Full.all_of pred s = Full.none_of (fun x => negb (pred x)) s /\
  (Full.any_of pred s = true <-> Full.find_all_if pred s <> []) /\
  (Full.contains value s = true <-> Full.find_all value s <> []).
Proof.
  assert (Hcontains : Full.contains value s
                      = existsb (fun x => eq_op x value) (StdVector.items (Full.m_data s))).
  { apply contains_as_any. }
  assert (Hfound : forall p : T -> bool,
             existsb p (StdVector.items (Full.m_data s)) = true
             <-> Full.find_all_from p 0 (StdVector.items (Full.m_data s)) <> []).
  { intro p.
    destruct (find_all_from_spec p (StdVector.items (Full.m_data s)) 0) as [_ Hin].
    rewrite existsb_exists. split.
    - intros (x & Hx & Hp). apply In_nth_error in Hx. destruct Hx as [k Hk].
      intro Hnil. assert (Hk' : In k (Full.find_all_from p 0 (StdVector.items (Full.m_data s)))).
      { apply Hin. split; [lia |]. exists x. rewrite Nat.sub_0_r. auto. }
      rewrite Hnil in Hk'. destruct Hk'.
    - intro Hne.
      destruct (Full.find_all_from p 0 (StdVector.items (Full.m_data s)))
        as [| k ks] eqn:Hf; [contradiction |].
      destruct (proj1 (Hin k) (or_introl eq_refl)) as (_ & x & Hx & Hp).
      exists x. split; [| exact Hp]. eapply nth_error_In. exact Hx. }
  split; [| split; [| split; [| split; [| split; [| split]]]]].
  - rewrite Hcontains. apply existsb_exists.
  - symmetry. exact Hcontains.
  - unfold Full.none_of_value, Algo.none_of. rewrite Hcontains. reflexivity.
  - reflexivity.
  - unfold Full.all_of, Full.none_of, Algo.all_of, Algo.none_of.
    clear. induction (StdVector.items (Full.m_data s)) as [| x r IH];
      cbn [forallb existsb]; [reflexivity |].
    rewrite IH. destruct (pred x); reflexivity.
  - apply Hfound.
  - rewrite Hcontains. apply (Hfound (fun x => eq_op x value)).
Qed.

(** X12. [find(value)] of the minimal variant, on a store of at most 2^31
    elements, returns -1 exactly when [contains(value)] is false, and
    otherwise the position of the first element equal to [value];
    [count(value)] is zero exactly when [contains(value)] is false. *)
Theorem mini_find_first_position {E : EqOp T} (value : T) (m : Mini.Store T) :
  (Z.of_nat (Mini.size m) <= 2 ^ 31)%Z ->
  (Mini.find value m = (-1)%Z <-> Mini.contains value m = false) /\
  (Mini.contains value m = true ->
   exists i x,
     Mini.find value m = Z.of_nat i /\
     nth_error (StdVector.items (Mini.m_data m)) i = Some x /\
     eq_op x value = true /\
     forall j y, j < i -> nth_error (StdVector.items (Mini.m_data m)) j = Some y ->
                 eq_op y value = false) /\
  (Mini.count value m = 0 <-> Mini.contains value m = false).
Proof.
  intro Hsize. unfold Mini.find, Mini.contains, Mini.count, Algo.count, Mini.size,
    StdVector.size in *.
  pose proof (algo_find_spec value (StdVector.items (Mini.m_data m))) as Hspec.
  destruct (Algo.find (StdVector.items (Mini.m_data m)) value) as [i |] eqn:Hfind.
  - destruct Hspec as [(x & Hx & Hmatch) Hbefore].
    assert (Hi : i < length (StdVector.items (Mini.m_data m))).
    { apply nth_error_Some. congruence. }
    assert (Hfit : ((Z.of_nat i + 2 ^ 31) mod 2 ^ 32 - 2 ^ 31 = Z.of_nat i)%Z).
    { rewrite Z.mod_small by lia. lia. }
    rewrite Hfit. split; [| split].
    + split; [lia | discriminate].
    + intros _. exists i, x. auto.
    + split; [| discriminate]. intro Hcount. exfalso.
      assert (Hin : In x (filter (fun y => eq_op y value)
                            (StdVector.items (Mini.m_data m)))).
      { apply filter_In. split; [eapply nth_error_In; exact Hx | exact Hmatch]. }
      destruct (filter (fun y => eq_op y value) (StdVector.items (Mini.m_data m)));
        [destruct Hin | discriminate].
  - split; [| split].
    + split; reflexivity.
    + discriminate.
    + split; [reflexivity |]. intros _.
      rewrite (filter_none _ _ Hspec). reflexivity.
Qed.

End Search.

Lemma mini_find_first_position_witness :
  Mini.find 2%Z (@Mini.Store_list libstdcxx Z [5; 2; 8; 1; 9; 2; 5]%Z) = 1%Z /\
  Mini.find 7%Z (@Mini.Store_list libstdcxx Z [5; 2; 8; 1; 9; 2; 5]%Z) = (-1)%Z.
Proof.
  destruct (@mini_find_first_position Z _ 7%Z
              (@Mini.Store_list libstdcxx Z [5; 2; 8; 1; 9; 2; 5]%Z))
    as [Habsent _]; [cbv; discriminate |].
  split; [reflexivity |]. apply Habsent. reflexivity.
Defined.

(** ** Reordering *)

Section Reordering.
Variable T : Type.
Context {E : EqOp T} {L : LtOp T} {G : GtOp T} {TO : TotalOrder T}.
Implicit Types (s : Full.Store T) (l : list T).

(** The same order read downwards is a total order again, with [>] in
    the place of [<]. *)
Lemma downward_total_order :
  @TotalOrder T E (fun x y => lt_op y x) (fun x y => lt_op x y).
Proof.
  split.
  - exact (@eq_op_spec T E L G TO).
  - exact (@lt_op_irrefl T E L G TO).
  - intros x y z Hxy Hyz. exact (@lt_op_trans T E L G TO z y x Hyz Hxy).
  - intros x y. destruct (@lt_op_total T E L G TO x y) as [H | [H | H]]; auto.
  - reflexivity.
Qed.

Lemma sort_insert_ext (comp comp' : T -> T -> bool) x l :
  (forall a b, comp a b = comp' a b) ->
  Algo.sort_insert comp x l = Algo.sort_insert comp' x l.
Proof.
  intro Hext. induction l as [| y r IH]; cbn [Algo.sort_insert]; [reflexivity |].
  rewrite Hext, IH. reflexivity.
Qed.

Lemma sort_ext (comp comp' : T -> T -> bool) l :
  (forall a b, comp a b = comp' a b) -> Algo.sort comp l = Algo.sort comp' l.
Proof.
  intro Hext. induction l as [| x r IH]; cbn [Algo.sort]; [reflexivity |].
  rewrite IH. apply sort_insert_ext. exact Hext.
Qed.

Lemma sorted_snoc (R : T -> T -> Prop) l x :
  StronglySorted R l -> Forall (fun y => R y x) l -> StronglySorted R (l ++ [x]).
Proof.
  induction 1 as [| y r Hr IH Hy]; intro Hall; cbn [app].
  - repeat constructor.
  - inversion Hall as [| ? ? Hyx Hrx]; subst.
    constructor; [apply IH; exact Hrx |].
    apply Forall_app. split; [exact Hy | repeat constructor; exact Hyx].
Qed.

Lemma sorted_rev (R : T -> T -> Prop) l :
  StronglySorted R l -> StronglySorted (fun x y => R y x) (rev l).
Proof.
  induction 1 as [| x r Hr IH Hx]; cbn [rev]; [constructor |].
  apply sorted_snoc; [exact IH |].
  apply Forall_rev. exact Hx.
Qed.

(** Sorting with [std::greater] gives the ascending result backwards. *)
Lemma sort_descending_is_reversed l :
  Algo.sort gt_op l = rev (Algo.sort lt_op l).
Proof.
  rewrite (sort_ext gt_op (fun x y => lt_op y x)) by apply gt_op_spec.
  symmetry.
  apply (@sort_unique T E (fun x y => lt_op y x) (fun x y => lt_op x y)
           downward_total_order).
  - rewrite <- Permutation_rev. symmetry. apply sort_perm.
  - apply (sorted_rev (R := fun x y => lt_op y x = false)).
    apply (@sort_sorted T E L G TO).
Qed.

(** X14. For elements with a total order, [sort(true)] leaves a
    permutation of the elements in which no element is smaller than one
    before it; [sort(false)] leaves the same elements in the opposite
    order; sorting a sorted store changes nothing; the capacity is kept;
    and the minimal variant's [sort] does the same. *)
Theorem sort_orders_the_store s :
  exists up down,
    Full.sort true s = Normal tt up /\
    Full.sort false s = Normal tt down /\
    Permutation (StdVector.items (Full.m_data up)) (StdVector.items (Full.m_data s)) /\
    StronglySorted (fun x y => lt_op y x = false) (StdVector.items (Full.m_data up)) /\
    StdVector.items (Full.m_data down) = rev (StdVector.items (Full.m_data up)) /\
    Full.capacity up = Full.capacity s /\
    Full.capacity down = Full.capacity s /\
    Full.sort true up = Normal tt up /\
    Mini.sort true (Variants.to_mini s) = Normal tt (Variants.to_mini up) /\
    Mini.sort false (Variants.to_mini s) = Normal tt (Variants.to_mini down).
Proof.
  destruct s as [[l cap]].
  exists (Full.mkStore (StdVector.mkVector (Algo.sort lt_op l) cap)),
         (Full.mkStore (StdVector.mkVector (Algo.sort gt_op l) cap)).
  cbn [Full.m_data StdVector.items].
  split; [reflexivity |]. split; [reflexivity |].
  split; [apply sort_perm |].
  split; [apply (@sort_sorted T E L G TO) |].
  split; [apply sort_descending_is_reversed |].
  split; [reflexivity |]. split; [reflexivity |].
  split; [| split; reflexivity].
  unfold Full.sort, Full.sort_by, Full.set_data, StdVector.rewrite_items.
  cbn [Full.m_data StdVector.items StdVector.capacity StdVector.reserved].
  rewrite <- (@sort_unique T E L G TO (Algo.sort lt_op l) (Algo.sort lt_op l));
    [reflexivity | reflexivity | apply (@sort_sorted T E L G TO)].
Qed.

End Reordering.

Lemma sort_orders_the_store_witness :
  exists up down,
    Full.sort true (@Full.Store_list libstdcxx Z [5; 2; 8; 1; 9; 2; 5]%Z)
    = Normal tt up /\
    Full.sort false (@Full.Store_list libstdcxx Z [5; 2; 8; 1; 9; 2; 5]%Z)
    = Normal tt down /\
    StdVector.items (Full.m_data up) = [1; 2; 2; 5; 5; 8; 9]%Z /\
    StdVector.items (Full.m_data down) = [9; 8; 5; 5; 2; 2; 1]%Z.
Proof.
  destruct (@sort_orders_the_store Z _ _ _ int_total_order
              (@Full.Store_list libstdcxx Z [5; 2; 8; 1; 9; 2; 5]%Z))
    as (up & down & Hup & Hdown & _ & _ & Hrev & _).
  exists up, down. split; [exact Hup |]. split; [exact Hdown |].
  assert (Hitems : StdVector.items (Full.m_data up) = [1; 2; 2; 5; 5; 8; 9]%Z).
  { cbv in Hup. injection Hup as <-. reflexivity. }
  split; [exact Hitems |]. rewrite Hrev, Hitems. reflexivity.
Defined.

Section InPlace.
Variable T : Type.
Implicit Types (s : Full.Store T) (l : list T).

Local Abbreviation elements s := (StdVector.items (Full.m_data s)).

(** X15. [reverse()] puts the element of position [i] at position
    [size - 1 - i], and reversing twice gives back the very same store. *)
Theorem reverse_twice s :
  exists s',
    Full.reverse s = Normal tt s' /\
    Full.reverse s' = Normal tt s /\
    Full.size s' = Full.size s /\
    forall i, i < Full.size s ->
              nth_error (elements s') i = nth_error (elements s) (Full.size s - S i).
Proof.
  destruct s as [[l cap]].
  exists (Full.mkStore (StdVector.mkVector (rev l) cap)).
  split; [reflexivity |]. split; [| split].
  - unfold Full.reverse, Full.set_data, StdVector.rewrite_items, Algo.reverse.
    cbn [Full.m_data StdVector.items StdVector.capacity StdVector.reserved].
    rewrite rev_involutive. reflexivity.
  - unfold Full.size, StdVector.size. cbn [Full.m_data StdVector.items].
    apply length_rev.
  - unfold Full.size, StdVector.size. cbn [Full.m_data StdVector.items].
    intros i Hi. rewrite nth_error_rev.
    apply Nat.ltb_lt in Hi. rewrite Hi. reflexivity.
Qed.


(** X17. [transform(func)] replaces every element by its image, keeping
    size and capacity; transforming with [f] and then with [g] leaves the
    store that one transformation with their composition leaves. *)
Theorem transform_composes s (f g : T -> T) :
  exists s1 s2,
    Full.transform f s = Normal tt s1 /\
    Full.transform g s1 = Normal tt s2 /\
    Full.transform (fun x => g (f x)) s = Normal tt s2 /\
    Full.size s1 = Full.size s /\
    Full.capacity s1 = Full.capacity s /\
    forall i, nth_error (elements s1) i = option_map f (nth_error (elements s) i).
Proof.
  destruct s as [[l cap]].
  exists (Full.mkStore (StdVector.mkVector (map f l) cap)),
         (Full.mkStore (StdVector.mkVector (map g (map f l)) cap)).
  split; [reflexivity |]. split; [reflexivity |].
  split; [| split; [| split]].
  - unfold Full.transform, Full.set_data, StdVector.rewrite_items.
    cbn [Full.m_data StdVector.items StdVector.capacity StdVector.reserved].
    rewrite map_map. reflexivity.
  - unfold Full.size, StdVector.size. cbn [Full.m_data StdVector.items].
    apply length_map.
  - reflexivity.
  - intro i. cbn [Full.m_data StdVector.items]. apply nth_error_map.
Qed.

Lemma unique_scan_no_equal_neighbours {E : EqOp T} (r : list T) :
  forall x,
    Sorted (fun a b => eq_op a b = false) (Algo.unique_scan x r) /\
    hd_error (Algo.unique_scan x r) = Some x.
Proof.
  induction r as [| y r IH]; intro x; cbn [Algo.unique_scan].
  - split; [repeat constructor | reflexivity].
  - destruct (eq_op x y) eqn:Hxy; [apply IH |].
    destruct (IH y) as [Hsorted Hhd].
    split; [| reflexivity].
    constructor; [exact Hsorted |].
    destruct (Algo.unique_scan y r) as [| z zs]; [constructor |].
    injection Hhd as ->. constructor. exact Hxy.
Qed.

(** X18. [unique(false)] leaves a store with the same first element, at
    most as many elements, the same capacity, and no two equal
    neighbours; a second [unique(false)] changes nothing; and the minimal
    variant's [unique()] leaves the same store. *)
Theorem unique_without_sorting {E : EqOp T} {L : LtOp T} {G : GtOp T} s :
  exists s',
    Full.unique false s = Normal tt s' /\
    Mini.unique (Variants.to_mini s) = Normal tt (Variants.to_mini s') /\
    Full.unique false s' = Normal tt s' /\
    Sorted (fun a b => eq_op a b = false) (elements s') /\
    hd_error (elements s') = hd_error (elements s) /\
    Full.size s' <= Full.size s /\
    Full.capacity s' = Full.capacity s.
Proof.
  eexists. split; [apply (full_unique_sorted_or_not false) |].
  cbn [Full.m_data StdVector.items].
  assert (Hsorted : Sorted (fun a b => eq_op a b = false)
                           (Algo.unique_kept (elements s)) /\
                    hd_error (Algo.unique_kept (elements s))
                    = hd_error (elements s)).
  { destruct (elements s) as [| x r];
      cbn [Algo.unique_kept]; [split; [constructor | reflexivity] |].
    apply unique_scan_no_equal_neighbours. }
  destruct Hsorted as [Hsorted Hhd].
  split; [| split; [| split; [exact Hsorted | split; [exact Hhd | split]]]].
  - apply (mini_unique_no_sort (Variants.to_mini s)).
  - rewrite (full_unique_sorted_or_not false). cbn [Full.m_data StdVector.items].
    rewrite (unique_kept_no_equal_neighbours Hsorted). reflexivity.
  - unfold Full.size, StdVector.size. cbn [Full.m_data StdVector.items].
    apply unique_kept_shorter.
  - reflexivity.
Qed.

End InPlace.

(** ** filter, once more *)

Section Filtering.
Context {alloc : Allocator}.
Variable T : Type.
Implicit Types (s : Full.Store T).

Local Abbreviation elements s := (StdVector.items (Full.m_data s)).

Lemma full_filter_items (pred : T -> bool) s :
  exists r, Full.filter pred s = Normal r s /\
            elements r = filter pred (elements s).
Proof.
  unfold Full.filter.
  destruct (full_for_each_appends (fun x => if pred x then [x] else [])
              (fun elem => if pred elem then Full.push_back elem else ret tt))
    with (l := elements s) (r := Full.Store_default T) as (r & Hr & Hi).
  { intros x r. destruct (pred x).
    - apply full_push_back_items.
    - exists r. rewrite app_nil_r. split; reflexivity. }
  exists r. unfold building. rewrite Hr. split; [reflexivity |].
  rewrite Hi. apply flat_map_filter.
Qed.

Lemma filter_filter (p q : T -> bool) (l : list T) :
  filter q (filter p l) = filter (fun x => p x && q x) l.
Proof.
  induction l as [| x r IH]; cbn [filter]; [reflexivity |].
  destruct (p x); cbn [filter andb]; [destruct (q x) |]; rewrite IH; reflexivity.
Qed.

(** X19. Every element of [filter(p)]'s result satisfies [p]; the result
    is no longer than the source, is non-empty exactly when [any_of(p)]
    holds of the source, and has all the source's elements when
    [all_of(p)] holds of it.  Filtering the result by [q] gives the
    elements that filtering the source by "[p] and [q]" gives. *)
Theorem filter_composes (p q : T -> bool) s :
  exists r rq rpq,
    Full.filter p s = Normal r s /\
    Full.filter q r = Normal rq r /\
    Full.filter (fun x => p x && q x) s = Normal rpq s /\
    elements rq = elements rpq /\
    Full.all_of p r = true /\
    Full.size r <= Full.size s /\
    (Full.empty r = false <-> Full.any_of p s = true) /\
    (Full.all_of p s = true -> elements r = elements s).
Proof.
  destruct (full_filter_items p s) as (r & Hr & Er).
  destruct (full_filter_items q r) as (rq & Hrq & Erq).
  destruct (full_filter_items (fun x => p x && q x) s) as (rpq & Hrpq & Erpq).
  exists r, rq, rpq.
  split; [exact Hr |]. split; [exact Hrq |]. split; [exact Hrpq |].
  split; [rewrite Erq, Er, Erpq; apply filter_filter |].
  unfold Full.all_of, Full.any_of, Full.size, Full.empty, StdVector.size,
    StdVector.empty, Algo.all_of, Algo.any_of.
  rewrite Er. clear Hr Hrq Hrpq Er Erq Erpq.
  split; [| split; [| split]].
  - apply forallb_forall. intros x Hx. apply filter_In in Hx. apply Hx.
  - apply filter_length_le.
  - induction (elements s) as [| x l IH]; cbn [filter existsb].
    + split; discriminate.
    + destruct (p x); cbn [orb]; [split; reflexivity | exact IH].
  - intro Hall. induction (elements s) as [| x l IH]; [reflexivity |].
    cbn [forallb] in Hall. apply andb_true_iff in Hall. destruct Hall as [Hx Hl].
    cbn [filter]. rewrite Hx, (IH Hl). reflexivity.
Qed.

End Filtering.

(** ** Capacity and size on request *)

Section Requests.
Context {alloc : Allocator}.
Variable T : Type.
Implicit Types (s : Full.Store T).

Local Abbreviation elements s := (StdVector.items (Full.m_data s)).

Lemma push_back_within_capacity (value : T) s :
  Full.size s < Full.capacity s ->
  exists s', Full.push_back value s = Normal tt s' /\
             elements s' = elements s ++ [value] /\
             Full.capacity s' = Full.capacity s.
Proof.
  intro Hroom. eexists. split; [reflexivity |]. split; [reflexivity |].
  unfold Full.capacity, StdVector.push_back, StdVector.room_for, StdVector.capacity.
  cbn [Full.m_data StdVector.reserved].
  unfold Full.size, Full.capacity, StdVector.capacity in Hroom.
  destruct (Nat.leb_spec (S (StdVector.size (Full.m_data s)))
              (StdVector.reserved (Full.m_data s))); [reflexivity | lia].
Qed.

Lemma push_backs_within_capacity (l : list T) :
  forall s,
    Full.size s + length l <= Full.capacity s ->
    exists s', for_each l (@Full.push_back alloc T) s = Normal tt s' /\
               elements s' = elements s ++ l /\
               Full.capacity s' = Full.capacity s.
Proof.
  induction l as [| x r IH]; intros s Hroom; cbn [for_each].
  - exists s. rewrite app_nil_r. repeat split.
  - cbn [length] in Hroom.
    destruct (push_back_within_capacity x s) as (s1 & H1 & E1 & C1); [lia |].
    assert (Hsize : Full.size s1 = S (Full.size s)).
    { unfold Full.size, StdVector.size. rewrite E1, length_app. cbn [length]. lia. }
    destruct (IH s1) as (s2 & H2 & E2 & C2); [lia |].
    exists s2. unfold bind. rewrite H1. split; [exact H2 |].
    split; [rewrite E2, E1, <- app_assoc; reflexivity | lia].
Qed.

(** X20. [reserve(n)] keeps the elements, never lowers the capacity and
    leaves it at least [n]; it changes nothing when the capacity already
    was at least [n].  Afterwards, pushing elements to the back while the
    size stays within the capacity never changes the capacity again. *)
Theorem reserve_then_push_back n s :
  exists s',
    Full.reserve n s = Normal tt s' /\
    elements s' = elements s /\
    n <= Full.capacity s' /\
    Full.capacity s <= Full.capacity s' /\
    (n <= Full.capacity s -> s' = s) /\
    forall l : list T,
      Full.size s + length l <= Full.capacity s' ->
      exists s'', for_each l (@Full.push_back alloc T) s' = Normal tt s'' /\
                  elements s'' = elements s ++ l /\
                  Full.capacity s'' = Full.capacity s'.
Proof.
  destruct s as [[l0 cap]].
  unfold Full.reserve, Full.set_data, StdVector.reserve, Full.capacity,
    StdVector.capacity.
  cbn [Full.m_data StdVector.reserved].
  destruct (Nat.leb_spec n cap) as [Hle | Hgt].
  - eexists. split; [reflexivity |].
    cbn [Full.m_data StdVector.items StdVector.reserved].
    split; [reflexivity |]. split; [exact Hle |]. split; [lia |].
    split; [reflexivity |].
    intros l Hroom.
    apply (push_backs_within_capacity l
             (Full.mkStore (StdVector.mkVector l0 cap))). exact Hroom.
  - eexists. split; [reflexivity |].
    cbn [Full.m_data StdVector.items StdVector.reserved].
    pose proof (reserved_capacity_ge cap n) as Hres.
    split; [reflexivity |]. split; [exact Hres |]. split; [lia |].
    split; [lia |].
    intros l Hroom.
    apply (push_backs_within_capacity l
             (Full.mkStore (StdVector.mkVector l0 (reserved_capacity cap n)))).
    exact Hroom.
Qed.

(** X21. [resize(n)] leaves exactly [n] elements: the first
    [min(n, size)] are the old ones, the others are value-initialised.
    Shrinking keeps the capacity.  [clear()] leaves what [resize(0)]
    leaves: no element, the capacity as it was. *)
Theorem resize_sets_the_size {D : Default T} n s :
  exists s',
    Full.resize n s = Normal tt s' /\
    Full.size s' = n /\
    (forall i, i < n ->
               nth_error (elements s') i
               = if i <? Full.size s then nth_error (elements s) i
                 else Some value_init) /\
    (n <= Full.size s -> Full.capacity s' = Full.capacity s) /\
    Full.clear s = Full.resize 0 s /\
    Full.clear s = Normal tt (Full.mkStore (StdVector.mkVector [] (Full.capacity s))).
Proof.
  destruct s as [[l cap]].
  unfold Full.resize, Full.clear, Full.set_data, StdVector.resize, StdVector.clear,
    Full.size, Full.capacity, StdVector.size, StdVector.capacity.
  cbn [Full.m_data StdVector.items StdVector.reserved].
  destruct (Nat.leb_spec n (length l)) as [Hle | Hgt].
  - eexists. split; [reflexivity |].
    cbn [Full.m_data StdVector.items StdVector.reserved].
    split; [rewrite length_firstn; lia |].
    split; [| split; [reflexivity | split; reflexivity]].
    intros i Hi. rewrite nth_error_firstn_below by exact Hi.
    destruct (Nat.ltb_spec i (length l)); [reflexivity | lia].
  - eexists. split; [reflexivity |].
    cbn [Full.m_data StdVector.items StdVector.reserved].
    split; [rewrite length_app, repeat_length; lia |].
    split; [| split; [lia | split; reflexivity]].
    intros i Hi. destruct (Nat.ltb_spec i (length l)) as [Hin | Hout].
    + apply nth_error_app1. exact Hin.
    + rewrite nth_error_app2 by exact Hout.
      apply nth_error_repeat. lia.
Qed.

End Requests.

Lemma reserve_then_push_back_witness :
  exists s' s'',
    @Full.reserve libstdcxx Z 100 (@Full.Store_default libstdcxx Z) = Normal tt s' /\
    for_each [1; 2; 3]%Z (@Full.push_back libstdcxx Z) s' = Normal tt s'' /\
    StdVector.items (Full.m_data s'') = [1; 2; 3]%Z /\
    Full.capacity s'' = 100.
Proof.
  destruct (@reserve_then_push_back libstdcxx Z 100 (@Full.Store_default libstdcxx Z))
    as (s' & Hres & _ & _ & _ & _ & Hpush).
  assert (Hcap : Full.capacity s' = 100).
  { cbv in Hres. injection Hres as <-. reflexivity. }
  destruct (Hpush [1; 2; 3]%Z) as (s'' & Hloop & Hitems & Hsame).
  { rewrite Hcap. cbv. lia. }
  exists s', s''. split; [exact Hres |]. split; [exact Hloop |].
  split; [exact Hitems | rewrite Hsame; exact Hcap].
Defined.

(** ** sum and average of the minimal variant *)

Section Sums.
Context {alloc : Allocator} {fp : Floating}.
Variable T : Type.
Context {D : Default T} {P : PlusOp T} {C : ToDouble T}.
Hypothesis plus_assoc : forall x y z : T, plus_op x (plus_op y z) = plus_op (plus_op x y) z.
Hypothesis plus_comm : forall x y : T, plus_op x y = plus_op y x.

Lemma accumulate_permutation (l l' : list T) :
  Permutation l l' ->
  forall init, Algo.accumulate plus_op init l = Algo.accumulate plus_op init l'.
Proof.
  unfold Algo.accumulate.
  induction 1 as [| x l l' _ IH | x y l | l l' l'' _ IH1 _ IH2];
    intro init; cbn [fold_left].
  - reflexivity.
  - apply IH.
  - f_equal. rewrite <- !plus_assoc. f_equal. apply plus_comm.
  - rewrite IH1. apply IH2.
Qed.

(** X13. Where [+] of the element type is associative and commutative,
    [sum()] and [average()] do not depend on the order of the elements:
    [sort] and [reverse] leave them unchanged.  After [push_back(v)],
    [sum()] is the old sum plus [v]. *)
Theorem sum_ignores_order {L : LtOp T} {G : GtOp T} (ascending : bool)
        (value : T) (m : Mini.Store T) :
  exists sorted reversed pushed,
    Mini.sort ascending m = Normal tt sorted /\
    Mini.reverse m = Normal tt reversed /\
    Mini.push_back value m = Normal tt pushed /\
    Mini.sum sorted = Mini.sum m /\
    Mini.sum reversed = Mini.sum m /\
    Mini.average sorted = Mini.average m /\
    Mini.average reversed = Mini.average m /\
    Mini.sum pushed = plus_op (Mini.sum m) value.
Proof.
  destruct m as [[l cap]].
  assert (Hsorted : forall comp,
             Mini.sum (Mini.mkStore (StdVector.mkVector (Algo.sort comp l) cap))
             = Mini.sum (Mini.mkStore (StdVector.mkVector l cap))).
  { intro comp. unfold Mini.sum. cbn [Mini.m_data StdVector.items].
    apply accumulate_permutation, sort_perm. }
  assert (Hreversed :
            Mini.sum (Mini.mkStore (StdVector.mkVector (rev l) cap))
            = Mini.sum (Mini.mkStore (StdVector.mkVector l cap))).
  { unfold Mini.sum. cbn [Mini.m_data StdVector.items].
    apply accumulate_permutation. symmetry. apply Permutation_rev. }
  exists (Mini.mkStore
            (StdVector.mkVector
               (Algo.sort (if ascending then lt_op else gt_op) l) cap)),
         (Mini.mkStore (StdVector.mkVector (rev l) cap)).
  eexists.
  split; [destruct ascending; reflexivity |].
  split; [reflexivity |]. split; [reflexivity |].
  split; [apply Hsorted |]. split; [exact Hreversed |].
  split; [| split].
  - unfold Mini.average. rewrite Hsorted.
    unfold Mini.empty, Mini.size, StdVector.empty, StdVector.size.
    cbn [Mini.m_data StdVector.items].
    rewrite length_sort.
    pose proof (length_sort (if ascending then lt_op else gt_op) l) as Hlen.
    destruct (Algo.sort (if ascending then lt_op else gt_op) l), l;
      try discriminate Hlen; reflexivity.
  - unfold Mini.average. rewrite Hreversed.
    unfold Mini.empty, Mini.size, StdVector.empty, StdVector.size.
    cbn [Mini.m_data StdVector.items].
    rewrite length_rev.
    pose proof (length_rev l) as Hlen.
    destruct (rev l), l; try discriminate Hlen; reflexivity.
  - unfold Mini.sum, Algo.accumulate, StdVector.push_back.
    cbn [Mini.m_data StdVector.items].
    apply fold_left_app.
Qed.

End Sums.

Lemma sum_ignores_order_witness :
  exists sorted,
    Mini.sort true (@Mini.Store_list libstdcxx Z [5; 2; 8]%Z) = Normal tt sorted /\
    Mini.sum sorted = 15%Z /\
    @Mini.average Z traced _ _ _ sorted
    = traced_div (traced_of_int 15) (traced_of_size 3).
Proof.
  destruct (@sum_ignores_order libstdcxx traced Z int_default int_plus
              (@int_to_double traced) Z.add_assoc Z.add_comm
              int_lt int_gt true 0%Z (@Mini.Store_list libstdcxx Z [5; 2; 8]%Z))
    as (sorted & _ & _ & Hsort & _ & _ & Hsum & _ & Havg & _).
  exists sorted. split; [exact Hsort |].
  split; [rewrite Hsum | rewrite Havg]; reflexivity.
Defined.

(** ** Typed conversion, once more *)

Section ConversionResults.
Context {alloc : Allocator}.

Local Abbreviation elements s := (StdVector.items (Full.m_data s)).

Lemma conversion_collects U V (f : U -> V) (body : U -> method (Full.Store V) unit)
      (s : Full.Store U) :
  (forall val r, body val r = Full.push_back (f val) r) ->
  Full.empty s = false ->
  exists r,
    (if Full.empty s then throw RuntimeError s
     else building (Full.Store_default V) (for_each (elements s) body) s)
    = Normal r s /\
    elements r = map f (elements s).
Proof.
  intros Hbody Hne. rewrite Hne. apply (full_collect f body Hbody).
Qed.

(** X22. On a non-empty store every typed conversion returns a store
    with as many elements as the source.  Converting strings with
    [to_string] and ints with [to_int] copies the elements; [to_char]
    takes the first character of each string, or the null character of
    an empty one. *)
Theorem conversions_keep_the_size (U : Type) (src : convertible U)
        (s : Full.Store U) (texts : Full.Store string) (ints : Full.Store Z) :
  Full.empty s = false ->
  Full.empty texts = false ->
  Full.empty ints = false ->
  (exists ri rc rs,
      Full.to_int src s = Normal ri s /\
      Full.to_char src s = Normal rc s /\
      Full.to_string src s = Normal rs s /\
      Full.size ri = Full.size s /\
      Full.size rc = Full.size s /\
      Full.size rs = Full.size s) /\
  (exists r, Full.to_string from_string texts = Normal r texts /\
             elements r = elements texts) /\
  (exists r, Full.to_int (from_arithmetic int_arithmetic) ints = Normal r ints /\
             elements r = elements ints) /\
  (exists r, Full.to_char from_string texts = Normal r texts /\
             elements r = map (fun text => match text with
                                           | String c _ => c
                                           | EmptyString => zero
                                           end) (elements texts)).
Proof.
  intros Hs Htexts Hints.
  split; [| split; [| split]].
  - destruct (to_int_element_pushes src) as [fi Hfi].
    destruct (to_char_element_pushes src) as [fc Hfc].
    destruct (to_string_element_pushes src) as [fs Hfs].
    destruct (conversion_collects fi _ s Hfi Hs) as (ri & Hri & Eri).
    destruct (conversion_collects fc _ s Hfc Hs) as (rc & Hrc & Erc).
    destruct (conversion_collects fs _ s Hfs Hs) as (rs & Hrs & Ers).
    exists ri, rc, rs. unfold Full.to_int, Full.to_char, Full.to_string.
    split; [exact Hri |]. split; [exact Hrc |]. split; [exact Hrs |].
    unfold Full.size, StdVector.size. rewrite Eri, Erc, Ers, !length_map.
    repeat split.
  - destruct (conversion_collects (fun val : string => val)
                (Full.to_string_element from_string) texts) as (r & Hr & Er);
      [reflexivity | exact Htexts |].
    exists r. split; [exact Hr |]. rewrite Er. apply map_id.
  - destruct (conversion_collects (fun val : Z => val)
                (Full.to_int_element (from_arithmetic int_arithmetic)) ints)
      as (r & Hr & Er); [reflexivity | exact Hints |].
    exists r. split; [exact Hr |]. rewrite Er. apply map_id.
  - apply (conversion_collects
             (fun text => match text with String c _ => c | EmptyString => zero end)
             (Full.to_char_element from_string) texts); [| exact Htexts].
    intros val r. destruct val; reflexivity.
Qed.

(** The decimal text of a character code is never the character. *)
Lemma char_code_text_differs (char_is_signed : bool) (c : ascii) :
  Text.to_string (char_to_int char_is_signed c) <> String c EmptyString.
Proof.
  destruct char_is_signed;
    destruct c as [[] [] [] [] [] [] [] []]; vm_compute; discriminate.
Qed.

Lemma char_of_its_code (char_is_signed : bool) (c : ascii) :
  cast_char (cast_int (Arithmetic := char_arithmetic char_is_signed) c) = c.
Proof.
  destruct char_is_signed;
    destruct c as [[] [] [] [] [] [] [] []]; vm_compute; reflexivity.
Qed.

(** X23. [char] is an arithmetic type, so [to_string()] on a non-empty
    store of characters takes the [std::to_string] branch: every element
    becomes the decimal text of its character code, never the
    one-character text, whether plain [char] is signed or not.  [to_int()]
    followed by [to_char()] gives the characters back. *)
Theorem chars_convert_as_numbers (char_is_signed : bool) (s : Full.Store ascii) :
  Full.empty s = false ->
  (exists r,
      Full.to_string (from_arithmetic (char_arithmetic char_is_signed)) s
      = Normal r s /\
      elements r = map (fun c => Text.to_string (char_to_int char_is_signed c))
                       (elements s) /\
      forall i c text, nth_error (elements s) i = Some c ->
                       nth_error (elements r) i = Some text ->
                       text <> String c EmptyString) /\
  (exists ints chars,
      Full.to_int (from_arithmetic (char_arithmetic char_is_signed)) s
      = Normal ints s /\
      Full.to_char (from_arithmetic int_arithmetic) ints = Normal chars ints /\
      elements chars = elements s).
Proof.
  intro Hne. split.
  - destruct (conversion_collects
                (fun c => Text.to_string (char_to_int char_is_signed c))
                (Full.to_string_element
                   (from_arithmetic (char_arithmetic char_is_signed))) s)
      as (r & Hr & Er); [reflexivity | exact Hne |].
    exists r. split; [exact Hr |]. split; [exact Er |].
    intros i c text Hc Htext. rewrite Er, nth_error_map, Hc in Htext.
    injection Htext as <-. apply char_code_text_differs.
  - destruct (conversion_collects (char_to_int char_is_signed)
                (Full.to_int_element
                   (from_arithmetic (char_arithmetic char_is_signed))) s)
      as (ints & Hints & Ei); [reflexivity | exact Hne |].
    assert (Hne' : Full.empty ints = false).
    { unfold Full.empty, StdVector.empty in *. rewrite Ei.
      destruct (elements s); [discriminate | reflexivity]. }
    destruct (conversion_collects (cast_char (Arithmetic := int_arithmetic))
                (Full.to_char_element (from_arithmetic int_arithmetic)) ints)
      as (chars & Hchars & Ec); [reflexivity | exact Hne' |].
    exists ints, chars. split; [exact Hints |]. split; [exact Hchars |].
    rewrite Ec, Ei, map_map. rewrite <- (map_id (elements s)) at 2.
    apply map_ext. intro c. apply (char_of_its_code char_is_signed).
Qed.

End ConversionResults.

Lemma conversions_keep_the_size_witness :
  exists r,
    @Full.to_char libstdcxx string from_string
      (@Full.Store_list libstdcxx string ["hello"; EmptyString; "cpp"]%string)
    = Normal r (@Full.Store_list libstdcxx string ["hello"; EmptyString; "cpp"]%string) /\
    StdVector.items (Full.m_data r) = ["h"; zero; "c"]%char.
Proof.
  destruct (@conversions_keep_the_size libstdcxx string from_string
              (@Full.Store_list libstdcxx string ["hello"; EmptyString; "cpp"]%string)
              (@Full.Store_list libstdcxx string ["hello"; EmptyString; "cpp"]%string)
              (@Full.Store_list libstdcxx Z [1]%Z))
    as (_ & _ & _ & r & Hr & Er); [reflexivity | reflexivity | reflexivity |].
  exists r. split; [exact Hr |]. rewrite Er. reflexivity.
Defined.

(** The integers of the example program: 65, 66, 67 are 'A', 'B', 'C';
    and 'A' is written as "65". *)
Lemma chars_convert_as_numbers_witness :
  exists r,
    @Full.to_string libstdcxx ascii (from_arithmetic (char_arithmetic true))
      (@Full.Store_list libstdcxx ascii ["A"; "b"]%char)
    = Normal r (@Full.Store_list libstdcxx ascii ["A"; "b"]%char) /\
    StdVector.items (Full.m_data r) = ["65"; "98"]%string.
Proof.
  destruct (@chars_convert_as_numbers libstdcxx true
              (@Full.Store_list libstdcxx ascii ["A"; "b"]%char))
    as [(r & Hr & Er & _) _]; [reflexivity |].
  exists r. split; [exact Hr |]. rewrite Er. reflexivity.
Defined.

(** ** print *)

Section Printing.
Variable T : Type.
Context {P : StreamOut T}.

Lemma size_sub_one (size : nat) :
  0 < size -> (Z.of_nat size < 2 ^ 64)%Z -> size_sub size 1 = (Z.of_nat size - 1)%Z.
Proof.
  intros Hpos Hfit. unfold size_sub, SIZE_MODULUS.
  apply Z.mod_small. lia.
Qed.

Lemma print_from_joins (size : nat) (rest : list T) :
  (Z.of_nat size < 2 ^ 64)%Z ->
  forall i, i + length rest = size ->
            Cout.print_from size i rest = String.concat " "%string (map stream_out rest).
Proof.
  intro Hfit. induction rest as [| x r IH]; intros i Hi; [reflexivity |].
  cbn [Cout.print_from map length] in *.
  rewrite size_sub_one by lia.
  rewrite (IH (S i)) by lia.
  destruct r as [| y r'].
  - cbn [length] in Hi.
    destruct (Z.ltb_spec (Z.of_nat i) (Z.of_nat size - 1)) as [Hlt | _]; [lia |].
    cbn [map String.concat]. cbn [String.append]. apply string_app_nil_r.
  - cbn [length] in Hi.
    destruct (Z.ltb_spec (Z.of_nat i) (Z.of_nat size - 1)) as [_ | Hge]; [| lia].
    reflexivity.
Qed.

(** X24. [print], in either variant and for a store of fewer than 2^64
    elements, writes the elements in order with exactly one space between
    neighbours and none at the end, followed by a newline if asked for;
    for an empty store it writes nothing but that newline. *)
Theorem print_joins_with_spaces (new_line : bool) (s : Full.Store T) :
  (Z.of_nat (Full.size s) < 2 ^ 64)%Z ->
  Full.print new_line s
  = (String.concat " "%string (map stream_out (StdVector.items (Full.m_data s)))
     ++ (if new_line then Cout.newline else EmptyString))%string /\
  Mini.print new_line (Variants.to_mini s) = Full.print new_line s /\
  (Full.empty s = true -> Full.print false s = EmptyString).
Proof.
  intro Hfit.
  assert (Hprint : Full.print new_line s
                   = (String.concat " "%string (map stream_out (StdVector.items (Full.m_data s)))
                      ++ (if new_line then Cout.newline else EmptyString))%string).
  { unfold Full.print. rewrite print_from_joins; [reflexivity | exact Hfit |].
    reflexivity. }
  split; [exact Hprint |]. split; [reflexivity |].
  intro He. unfold Full.print, Full.empty, StdVector.empty in *.
  destruct (StdVector.items (Full.m_data s)); [reflexivity | discriminate].
Qed.

End Printing.

Lemma print_joins_with_spaces_witness :
  Full.print true (@Full.Store_list libstdcxx Z [10; 20; 30]%Z)
  = ("10 20 30" ++ Cout.newline)%string.
Proof.
  destruct (@print_joins_with_spaces Z int_stream_out true
              (@Full.Store_list libstdcxx Z [10; 20; 30]%Z)) as [Hprint _].
  { cbv. reflexivity. }
  rewrite Hprint. reflexivity.
Defined.

(** ** The two variants, call by call *)

Section SideBySide.
Context {alloc : Allocator}.
Variable T : Type.


End SideBySide.

